(** * ranking_engine: a shallow embedding of the two-phase ranking algorithm

    The development follows the Python package [ranking_engine]:

    - [config.py]   thresholds, tier weights, block weights, [EPSILON];
    - [models.py]   [Requirement], [RequirementDetail], [BlockScore],
                    [ItemInput], [ItemScore];
    - [scoring.py]  [_clamp], [_determine_color], [_average],
                    [calculate_block_score];
    - [weights.py]  [redistribute_weights];
    - [ranking.py]  [_compare], [rank_items].

    Number model.  Python [int] is [Z].  Python [float] is modelled by the
    exact rationals [Q]: every arithmetic step of the source is kept, in
    the order the source performs it, but rounding is not modelled, so an
    equation between scores is an equation [==] of rationals.  The values
    that only a binary64 float can take (not-a-number, the two infinities)
    are kept in the type [pyfloat], on which the numerical guard of
    [calculate_block_score] is defined.

    Python's [dict] is stdpp's [gmap]; Python's [str] is [string]. *)

From Stdlib Require Import ZArith QArith Qabs Lqa Lia Sorted.
From stdpp Require Import gmap strings list fin_maps.

Local Open Scope Z_scope.

(* ===================================================================== *)
(** ** config.py *)
(* ===================================================================== *)

Definition GREEN_THRESHOLD : Z := 70.
Definition YELLOW_THRESHOLD : Z := 30.

Definition GREEN_WEIGHT : Q := 1.0%Q.
Definition YELLOW_WEIGHT : Q := 0.5%Q.
Definition RED_WEIGHT : Q := 0.01%Q.

Definition MANDATORY_WEIGHT : Q := 1.0%Q.
Definition PREFERRED_WEIGHT : Q := 0.2%Q.
Definition TASKS_WEIGHT : Q := 0.2%Q.

Definition EPSILON : Q := 1e-6%Q.

(* ===================================================================== *)
(** ** models.py *)
(* ===================================================================== *)

(** [class BlockType(str, Enum)] *)
Inductive BlockType : Set := MANDATORY | PREFERRED | TASKS.

#[global] Instance BlockType_eq_dec : EqDecision BlockType.
Proof. solve_decision. Defined.

Definition BlockType_code (b : BlockType) : nat :=
  match b with MANDATORY => 0%nat | PREFERRED => 1%nat | TASKS => 2%nat end.

Definition BlockType_of_code (n : nat) : BlockType :=
  match n with O => MANDATORY | S O => PREFERRED | _ => TASKS end.

#[global] Instance BlockType_countable : Countable BlockType.
Proof.
  refine (inj_countable' BlockType_code BlockType_of_code _).
  by intros [].
Defined.

#[global] Instance Q_inhabited : Inhabited Q := populate 0%Q.

(** [@dataclass class Requirement] *)
Record Requirement : Type := mkRequirement {
  req_name : string;
  match_percent : Z;
  req_evidence : string;
  difference_comment : string
}.

(** [@dataclass class RequirementDetail] *)
Record RequirementDetail : Type := mkRequirementDetail {
  name : string;
  percent : Z;
  color : string;
  evidence : string;
  comment : string
}.

(** [@dataclass class BlockScore] *)
Record BlockScore : Type := mkBlockScore {
  color_score : Q;
  percent_score : Q;
  g : Z;
  y : Z;
  r : Z;
  details : list RequirementDetail;
  g_avg : Q;
  y_avg : Q;
  r_avg : Q
}.

(** [BlockScore.n] (a property) *)
Definition n (b : BlockScore) : Z := g b + y b + r b.

(** [BlockScore.coverage] (a property) *)
Definition coverage (b : BlockScore) : Q :=
  let total := n b in
  if total =? 0 then 0%Q
  else (inject_Z (g b + y b) / inject_Z total)%Q.

(** [@dataclass class ItemInput]; [metadata] is an opaque payload that no
    function of the package reads. *)
Record ItemInput : Type := mkItemInput {
  in_item_id : string;
  in_mandatory : list Requirement;
  in_preferred : list Requirement;
  in_tasks : list Requirement;
  metadata : option (gmap string string)
}.

(** [@dataclass class ItemScore]; [rank] is [None] until [rank_items]
    assigns it. *)
Record ItemScore : Type := mkItemScore {
  item_id : string;
  mandatory : BlockScore;
  preferred : BlockScore;
  tasks : BlockScore;
  final_color_score : Q;
  final_percent_score : Q;
  used_weights : gmap BlockType Q;
  rank : option Z
}.

(** [score.rank = idx]: assignment to the [rank] attribute. *)
Definition set_rank (s : ItemScore) (idx : Z) : ItemScore :=
  {| item_id := item_id s;
     mandatory := mandatory s;
     preferred := preferred s;
     tasks := tasks s;
     final_color_score := final_color_score s;
     final_percent_score := final_percent_score s;
     used_weights := used_weights s;
     rank := Some idx |}.

(* ===================================================================== *)
(** ** scoring.py *)
(* ===================================================================== *)

(** [_clamp(value, min_value, max_value)] *)
Definition _clamp (value min_value max_value : Z) : Z :=
  Z.max min_value (Z.min max_value value).

(** [_determine_color(percent)] *)
Definition _determine_color (percent : Z) : string :=
  if GREEN_THRESHOLD <=? percent then "GREEN"
  else if YELLOW_THRESHOLD <=? percent then "YELLOW"
  else "RED".

(** [sum(values_list)] over floats: the running total starts at 0 and
    takes the values from left to right. *)
Definition Qsum (l : list Q) : Q := foldl Qplus 0%Q l.

(** [float(i)] for an [int] *)
Definition float (i : Z) : Q := inject_Z i.

(** [_average(values)]: the mean, [0.0] for an empty collection. *)
Definition _average (values : list Q) : Q :=
  match values with
  | [] => 0%Q
  | _ => (Qsum values / float (Z.of_nat (length values)))%Q
  end.

(** The values a binary64 float can hold: a finite number, an infinity or
    not-a-number. *)
Inductive pyfloat : Type :=
  | Finite (q : Q)
  | PosInf
  | NegInf
  | NaN.

(** [x == y] on floats: not-a-number equals nothing, itself included. *)
Definition pyfloat_eqb (a b : pyfloat) : bool :=
  match a, b with
  | Finite p, Finite q => Qeq_bool p q
  | PosInf, PosInf => true
  | NegInf, NegInf => true
  | _, _ => false
  end.

(** [x in (float("inf"), float("-inf"))] *)
Definition is_infinite (x : pyfloat) : bool :=
  pyfloat_eqb x PosInf || pyfloat_eqb x NegInf.

(** The "numerical safety" guard:
    [if ps != ps or ps in (inf, -inf): ps = 0.0]. *)
Definition numerical_safety (ps : pyfloat) : pyfloat :=
  if negb (pyfloat_eqb ps ps) || is_infinite ps then Finite 0%Q else ps.

(** The finite value carried by a float; the guard leaves no other. *)
Definition finite_value (x : pyfloat) : Q :=
  match x with Finite q => q | _ => 0%Q end.

(** The local variables the loop of [calculate_block_score] updates. *)
Record LoopState : Type := mkLoopState {
  ls_g : Z;
  ls_y : Z;
  ls_r : Z;
  green_percents : list Q;
  yellow_percents : list Q;
  red_percents : list Q;
  ls_details : list RequirementDetail
}.

Definition loop_init : LoopState :=
  {| ls_g := 0; ls_y := 0; ls_r := 0;
     green_percents := []; yellow_percents := []; red_percents := [];
     ls_details := [] |}.

(** The [RequirementDetail] built for one requirement. *)
Definition detail_of (req : Requirement) : RequirementDetail :=
  let percent := _clamp (match_percent req) 0 100 in
  {| name := req_name req;
     percent := percent;
     color := _determine_color percent;
     evidence := req_evidence req;
     comment := difference_comment req |}.

(** One iteration of [for req in requirements]. *)
Definition loop_body (st : LoopState) (req : Requirement) : LoopState :=
  let percent := _clamp (match_percent req) 0 100 in
  let color := _determine_color percent in
  let details := ls_details st ++ [detail_of req] in
  if String.eqb color "GREEN" then
    {| ls_g := ls_g st + 1; ls_y := ls_y st; ls_r := ls_r st;
       green_percents := green_percents st ++ [float percent];
       yellow_percents := yellow_percents st;
       red_percents := red_percents st;
       ls_details := details |}
  else if String.eqb color "YELLOW" then
    {| ls_g := ls_g st; ls_y := ls_y st + 1; ls_r := ls_r st;
       green_percents := green_percents st;
       yellow_percents := yellow_percents st ++ [float percent];
       red_percents := red_percents st;
       ls_details := details |}
  else
    {| ls_g := ls_g st; ls_y := ls_y st; ls_r := ls_r st + 1;
       green_percents := green_percents st;
       yellow_percents := yellow_percents st;
       red_percents := red_percents st ++ [float percent];
       ls_details := details |}.

Definition run_loop (requirements : list Requirement) : LoopState :=
  foldl loop_body loop_init requirements.

(** The all-zero [BlockScore] of the two early returns. *)
Definition zero_block_score : BlockScore :=
  {| color_score := 0%Q; percent_score := 0%Q;
     g := 0; y := 0; r := 0; details := [];
     g_avg := 0%Q; y_avg := 0%Q; r_avg := 0%Q |}.

(** Phase 1, [ColorScore_B], from the tier counts. *)
Definition phase1 (block_type : BlockType) (g y r : Z) : Q :=
  let n := g + y + r in
  if g + y =? 0 then 0%Q
  else
    let n_float := float n in
    match block_type with
    | MANDATORY =>
        let g_plus_half_y := (float g + YELLOW_WEIGHT * float y)%Q in
        let g_plus_y := float (g + y) in
        let numerator := (g_plus_half_y * g_plus_y + RED_WEIGHT * float r)%Q in
        (numerator / (n_float * n_float))%Q
    | _ =>
        let numerator :=
          (float g + YELLOW_WEIGHT * float y + RED_WEIGHT * float r)%Q in
        (numerator / n_float)%Q
    end.

(** Phase 2, [PercentScore_B], before the numerical guard. *)
Definition phase2 (g_avg y_avg r_avg color_score : Q) : Q :=
  let g_norm := (g_avg / 100.0)%Q in
  let y_norm := (y_avg / 100.0)%Q in
  let r_norm := (r_avg / 100.0)%Q in
  ((g_norm + YELLOW_WEIGHT * y_norm + RED_WEIGHT * r_norm) * color_score)%Q.

(** [calculate_block_score(requirements, block_type)] *)
Definition calculate_block_score
    (requirements : list Requirement) (block_type : BlockType) : BlockScore :=
  match requirements with
  | [] => zero_block_score
  | _ =>
      let st := run_loop requirements in
      let g := ls_g st in
      let y := ls_y st in
      let r := ls_r st in
      let n := g + y + r in
      if n =? 0 then zero_block_score
      else
        let color_score := phase1 block_type g y r in
        let g_avg := _average (green_percents st) in
        let y_avg := _average (yellow_percents st) in
        let r_avg := _average (red_percents st) in
        let percent_score :=
          numerical_safety (Finite (phase2 g_avg y_avg r_avg color_score)) in
        {| color_score := color_score;
           percent_score := finite_value percent_score;
           g := g; y := y; r := r;
           details := ls_details st;
           g_avg := g_avg; y_avg := y_avg; r_avg := r_avg |}
  end.

(* ===================================================================== *)
(** ** weights.py *)
(* ===================================================================== *)

(** [not lst]: a Python list is falsy exactly when it is empty. *)
Definition is_empty {A : Type} (lst : list A) : bool :=
  match lst with [] => true | _ => false end.

(** [redistribute_weights(mandatory, preferred, tasks)]: the dictionary is
    built with the configured weights and then updated key by key. *)
Definition redistribute_weights
    (mandatory preferred tasks : list Requirement) : gmap BlockType Q :=
  let weights : gmap BlockType Q :=
    <[TASKS := TASKS_WEIGHT]>
      (<[PREFERRED := PREFERRED_WEIGHT]>
        (<[MANDATORY := MANDATORY_WEIGHT]> ∅)) in
  let mandatory_empty := is_empty mandatory in
  let preferred_empty := is_empty preferred in
  let tasks_empty := is_empty tasks in
  let weights :=
    if mandatory_empty then <[MANDATORY := 0.0%Q]> weights else weights in
  if preferred_empty && tasks_empty then
    let weights :=
      <[MANDATORY := (weights !!! MANDATORY + weights !!! PREFERRED
                      + weights !!! TASKS)%Q]> weights in
    let weights := <[PREFERRED := 0.0%Q]> weights in
    <[TASKS := 0.0%Q]> weights
  else if preferred_empty then
    let weights :=
      <[TASKS := (weights !!! TASKS + weights !!! PREFERRED)%Q]> weights in
    <[PREFERRED := 0.0%Q]> weights
  else if tasks_empty then
    let weights :=
      <[PREFERRED := (weights !!! PREFERRED + weights !!! TASKS)%Q]> weights in
    <[TASKS := 0.0%Q]> weights
  else weights.

(* ===================================================================== *)
(** ** ranking.py *)
(* ===================================================================== *)

(** [a < b] and [a > b] on floats, as booleans. *)
Definition Qltb (a b : Q) : bool := negb (Qle_bool b a).
Definition Qgtb (a b : Q) : bool := Qltb b a.

(** The body of [for item in items]: the [ItemScore] appended for one
    item, with [rank] at its default [None]. *)
Definition score_item (item : ItemInput) : ItemScore :=
  let mandatory_score := calculate_block_score (in_mandatory item) MANDATORY in
  let preferred_score := calculate_block_score (in_preferred item) PREFERRED in
  let tasks_score := calculate_block_score (in_tasks item) TASKS in
  let weights :=
    redistribute_weights (in_mandatory item) (in_preferred item)
      (in_tasks item) in
  let final_color_score :=
    (weights !!! MANDATORY * color_score mandatory_score
     + weights !!! PREFERRED * color_score preferred_score
     + weights !!! TASKS * color_score tasks_score)%Q in
  let final_percent_score :=
    (weights !!! MANDATORY * percent_score mandatory_score
     + weights !!! PREFERRED * percent_score preferred_score
     + weights !!! TASKS * percent_score tasks_score)%Q in
  {| item_id := in_item_id item;
     mandatory := mandatory_score;
     preferred := preferred_score;
     tasks := tasks_score;
     final_color_score := final_color_score;
     final_percent_score := final_percent_score;
     used_weights := weights;
     rank := None |}.

(** The list [scores] when the first loop of [rank_items] ends. *)
Definition score_items (items : list ItemInput) : list ItemScore :=
  foldl (fun scores item => scores ++ [score_item item]) [] items.

(** [_compare(a, b)], the comparison function handed to [cmp_to_key]. *)
Definition _compare (a b : ItemScore) : Z :=
  let color_diff := (final_color_score b - final_color_score a)%Q in
  if Qgtb (Qabs color_diff) EPSILON then
    if Qgtb color_diff 0 then -1 else 1
  else
    let percent_diff := (final_percent_score b - final_percent_score a)%Q in
    if Qgtb percent_diff 0 then -1
    else if Qltb percent_diff 0 then 1
    else 0.

(** [list.sort(key=cmp_to_key(cmp))].  The sort is Python's library
    routine, not code of the package.  It is modelled by a stable insertion
    sort that, like the library's, only ever asks [key(x) < key(y)], that
    is [cmp x y < 0], and places an element behind the elements it is not
    less than. *)
Section Sort.
Context {A : Type} (cmp : A -> A -> Z).

(** [key(x) < key(y)] for keys made by [cmp_to_key(cmp)]. *)
Definition key_lt (x y : A) : bool := cmp x y <? 0.

Fixpoint insert_sorted (pivot : A) (l : list A) : list A :=
  match l with
  | [] => [pivot]
  | e :: l' =>
      if key_lt pivot e then pivot :: e :: l'
      else e :: insert_sorted pivot l'
  end.

Definition list_sort (l : list A) : list A :=
  foldl (fun sorted pivot => insert_sorted pivot sorted) [] l.
End Sort.

(** [for idx, score in enumerate(scores, start): score.rank = idx] *)
Fixpoint assign_ranks (start : Z) (scores : list ItemScore) : list ItemScore :=
  match scores with
  | [] => []
  | score :: rest => set_rank score start :: assign_ranks (start + 1) rest
  end.

(** The list [scores] after [scores.sort(key=cmp_to_key(_compare))]. *)
Definition sorted_scores (items : list ItemInput) : list ItemScore :=
  list_sort _compare (score_items items).

(** [rank_items(items)] *)
Definition rank_items (items : list ItemInput) : list ItemScore :=
  assign_ranks 1 (sorted_scores items).

(* ===================================================================== *)
(** ** Sample data *)
(* ===================================================================== *)

Definition req (p : Z) : Requirement :=
  {| req_name := "r"; match_percent := p;
     req_evidence := ""; difference_comment := "" |}.

Definition item (id : string) (m p t : list Z) : ItemInput :=
  {| in_item_id := id;
     in_mandatory := req <$> m;
     in_preferred := req <$> p;
     in_tasks := req <$> t;
     metadata := None |}.

(** Three items whose color scores lie close together: one Mandatory
    requirement at [m] percent, no Tasks, and [k] Preferred requirements at
    100 followed by one at 0.  The final color score is
    [1.4 - 0.396 / (k + 1)]. *)
Definition close_item (id : string) (m : Z) (k : nat) : ItemInput :=
  item id [m] (replicate k 100 ++ [0]) [].

Definition close_a : ItemInput := close_item "a" 100 699.
Definition close_b : ItemInput := close_item "b" 90 700.
Definition close_c : ItemInput := close_item "c" 80 701.

(** Two items far apart in color score: Mandatory [100, 100] against
    Mandatory [100, 0], no other block. *)
Definition sample_high : ItemInput := item "A" [100; 100] [] [].
Definition sample_low : ItemInput := item "B" [100; 0] [] [].

(** An item with a Mandatory block only. *)
Definition sample_only : ItemInput := item "only" [100; 80] [] [].

(* ===================================================================== *)
(** ** Tiers, as the specification counts them *)
(* ===================================================================== *)

(** The tier label of a requirement: its percentage clamped to [0,100],
    then classified. *)
Definition tier_of (rq : Requirement) : string :=
  _determine_color (_clamp (match_percent rq) 0 100).

(** The requirements of one tier, in input order. *)
Definition tier_members (tier : string) (reqs : list Requirement)
    : list Requirement :=
  filter (fun rq => tier_of rq = tier) reqs.

(** The number of requirements of one tier. *)
Definition tier_count (tier : string) (reqs : list Requirement) : Z :=
  Z.of_nat (length (tier_members tier reqs)).

(** The clamped percentages of one tier, as floats, in input order. *)
Definition tier_percents (tier : string) (reqs : list Requirement) : list Q :=
  (fun rq => float (_clamp (match_percent rq) 0 100)) <$> tier_members tier reqs.

(* ===================================================================== *)
(** ** Weights and ranks, as the specification reads them *)
(* ===================================================================== *)

(** The sum of the effective weights of the three block kinds. *)
Definition total_weight (weights : gmap BlockType Q) : Q :=
  (weights !!! MANDATORY + weights !!! PREFERRED + weights !!! TASKS)%Q.

(** The configured weight budget, [1.4] with the default constants. *)
Definition weight_budget : Q :=
  (MANDATORY_WEIGHT + PREFERRED_WEIGHT + TASKS_WEIGHT)%Q.

(* ===================================================================== *)
(** ** Order and stability, for a comparison function *)
(* ===================================================================== *)

(** [a] may stand before [b]: [key(b) < key(a)] does not hold. *)
Definition may_precede {A : Type} (cmp : A -> A -> Z) (a b : A) : Prop :=
  key_lt cmp b a = false.

(** Neither key is less than the other. *)
Definition same_key {A : Type} (cmp : A -> A -> Z) (a b : A) : bool :=
  negb (key_lt cmp a b) && negb (key_lt cmp b a).

(** The comparison function is consistent on the members of [l]: "may
    stand before" is transitive among them. *)
Definition consistent_on {A : Type} (cmp : A -> A -> Z) (l : list A) : Prop :=
  forall a b c, a ∈ l -> b ∈ l -> c ∈ l ->
    may_precede cmp a b -> may_precede cmp b c -> may_precede cmp a c.

(* ===================================================================== *)
(** ** models.py: the coverage properties of [ItemScore] *)
(* ===================================================================== *)

(** [block.coverage if block is not None else 0.0].  The dataclass declares
    the three block attributes as [BlockScore]; the test against [None] of
    the source is kept by reading an attribute as an optional block. *)
Definition coverage_or_zero (block : option BlockScore) : Q :=
  match block with
  | Some b => coverage b
  | None => 0.0%Q
  end.

(** [ItemScore.mandatory_coverage] (a property) *)
Definition mandatory_coverage (s : ItemScore) : Q :=
  coverage_or_zero (Some (mandatory s)).

(** The loop of [average_coverage]: the coverages of the blocks that are
    not [None] and hold at least one requirement, in order. *)
Definition collect_coverages (blocks : list (option BlockScore)) : list Q :=
  foldl (fun coverages block =>
           match block with
           | Some b =>
               if 0 <? n b then coverages ++ [coverage b] else coverages
           | None => coverages
           end) [] blocks.

(** The end of [average_coverage]: [0.0] if nothing was collected, else
    [sum(coverages) / float(len(coverages))]. *)
Definition mean_coverage (blocks : list (option BlockScore)) : Q :=
  let coverages := collect_coverages blocks in
  match coverages with
  | [] => 0.0%Q
  | _ => (Qsum coverages / float (Z.of_nat (length coverages)))%Q
  end.

(** [ItemScore.average_coverage] (a property) *)
Definition average_coverage (s : ItemScore) : Q :=
  mean_coverage [Some (mandatory s); Some (preferred s); Some (tasks s)].

(* ===================================================================== *)
(** ** Percentages, as a block scorer sees them *)
(* ===================================================================== *)

(** The clamped percentages of a requirement list, in input order. *)
Definition clamped_percents (reqs : list Requirement) : list Z :=
  (fun rq => _clamp (match_percent rq) 0 100) <$> reqs.

(** [reqs2] has, position by position, a percentage at least as high as
    [reqs1]. *)
Definition percents_raised (reqs1 reqs2 : list Requirement) : Prop :=
  Forall2 (fun rq1 rq2 => match_percent rq1 <= match_percent rq2) reqs1 reqs2.

(* ===================================================================== *)
(** ** Scores, as a caller of [rank_items] reads them *)
(* ===================================================================== *)

(** No two color scores of the list are within [EPSILON] of each other
    without being equal. *)
Definition well_separated (l : list ItemScore) : Prop :=
  forall a b, a ∈ l -> b ∈ l ->
    (Qabs (final_color_score a - final_color_score b) <= EPSILON)%Q ->
    (final_color_score a == final_color_score b)%Q.

(** A score with its rank taken off again. *)
Definition clear_rank (s : ItemScore) : ItemScore :=
  {| item_id := item_id s;
     mandatory := mandatory s;
     preferred := preferred s;
     tasks := tasks s;
     final_color_score := final_color_score s;
     final_percent_score := final_percent_score s;
     used_weights := used_weights s;
     rank := None |}.

(** The ascending order of the two keys: of two scores, the first has a
    color score at most [EPSILON] above the other's and, when the two
    color scores are within [EPSILON], a percent score no greater. *)
Definition ascending (a b : ItemScore) : Prop :=
  (final_color_score a - final_color_score b <= EPSILON)%Q
  /\ ((Qabs (final_color_score a - final_color_score b) <= EPSILON)%Q ->
      (final_percent_score a <= final_percent_score b)%Q).

(* ===================================================================== *)
(** ** Facts about [_clamp] and [_determine_color] *)
(* ===================================================================== *)

Lemma clamp_range (v : Z) : 0 <= _clamp v 0 100 <= 100.
Proof. unfold _clamp. lia. Qed.

Lemma clamp_id (v : Z) : 0 <= v <= 100 -> _clamp v 0 100 = v.
Proof. unfold _clamp. lia. Qed.

Lemma determine_color_cases (p : Z) :
  (70 <= p /\ _determine_color p = "GREEN")
  \/ (30 <= p < 70 /\ _determine_color p = "YELLOW")
  \/ (p < 30 /\ _determine_color p = "RED").
Proof.
  unfold _determine_color, GREEN_THRESHOLD, YELLOW_THRESHOLD.
  destruct (Z.leb_spec 70 p); [by left|].
  destruct (Z.leb_spec 30 p); [right; left | right; right]; split; (lia || done).
Qed.

Lemma determine_color_iff (c : Z) :
  (70 <= c <-> _determine_color c = "GREEN")
  /\ (30 <= c < 70 <-> _determine_color c = "YELLOW")
  /\ (c < 30 <-> _determine_color c = "RED").
Proof.
  destruct (determine_color_cases c) as [[? E]|[[? E]|[? E]]]; rewrite E;
    repeat split; intros; (lia || done).
Qed.

Lemma tier_of_cases (rq : Requirement) :
  tier_of rq = "GREEN" \/ tier_of rq = "YELLOW" \/ tier_of rq = "RED".
Proof.
  unfold tier_of.
  destruct (determine_color_cases (_clamp (match_percent rq) 0 100))
    as [[_ ->]|[[_ ->]|[_ ->]]]; auto.
Qed.

(* ===================================================================== *)
(** ** The loop of [calculate_block_score] *)
(* ===================================================================== *)

Lemma tier_members_cons_eq tier rq reqs :
  tier_of rq = tier ->
  tier_members tier (rq :: reqs) = rq :: tier_members tier reqs.
Proof. intros H. unfold tier_members. by rewrite filter_cons_True. Qed.

Lemma tier_members_cons_ne tier rq reqs :
  tier_of rq <> tier ->
  tier_members tier (rq :: reqs) = tier_members tier reqs.
Proof. intros H. unfold tier_members. by rewrite filter_cons_False. Qed.

Lemma tier_count_cons_eq tier rq reqs :
  tier_of rq = tier -> tier_count tier (rq :: reqs) = 1 + tier_count tier reqs.
Proof.
  intros H. unfold tier_count. rewrite tier_members_cons_eq by done.
  simpl length. lia.
Qed.

Lemma tier_count_cons_ne tier rq reqs :
  tier_of rq <> tier -> tier_count tier (rq :: reqs) = tier_count tier reqs.
Proof. intros H. unfold tier_count. by rewrite tier_members_cons_ne. Qed.

Lemma tier_percents_cons_eq tier rq reqs :
  tier_of rq = tier ->
  tier_percents tier (rq :: reqs)
  = float (_clamp (match_percent rq) 0 100) :: tier_percents tier reqs.
Proof. intros H. unfold tier_percents. by rewrite tier_members_cons_eq. Qed.

Lemma tier_percents_cons_ne tier rq reqs :
  tier_of rq <> tier -> tier_percents tier (rq :: reqs) = tier_percents tier reqs.
Proof. intros H. unfold tier_percents. by rewrite tier_members_cons_ne. Qed.

Lemma tier_count_nonneg tier reqs : 0 <= tier_count tier reqs.
Proof. unfold tier_count. lia. Qed.

(** What the loop leaves in its variables, from any starting state. *)
Lemma foldl_loop_body (reqs : list Requirement) (st : LoopState) :
  foldl loop_body st reqs
  = {| ls_g := ls_g st + tier_count "GREEN" reqs;
       ls_y := ls_y st + tier_count "YELLOW" reqs;
       ls_r := ls_r st + tier_count "RED" reqs;
       green_percents := green_percents st ++ tier_percents "GREEN" reqs;
       yellow_percents := yellow_percents st ++ tier_percents "YELLOW" reqs;
       red_percents := red_percents st ++ tier_percents "RED" reqs;
       ls_details := ls_details st ++ (detail_of <$> reqs) |}.
Proof.
  revert st. induction reqs as [|rq reqs IH]; intros st.
  - destruct st. simpl. unfold tier_count, tier_percents. simpl.
    rewrite !Z.add_0_r, !app_nil_r. done.
  - simpl foldl. rewrite IH. clear IH.
    unfold loop_body. fold (tier_of rq).
    destruct (tier_of_cases rq) as [E|[E|E]]; rewrite E; simpl String.eqb; cbv iota;
      simpl ls_g; simpl ls_y; simpl ls_r; simpl green_percents;
      simpl yellow_percents; simpl red_percents; simpl ls_details.
    + rewrite (tier_count_cons_eq "GREEN"), (tier_percents_cons_eq "GREEN") by done.
      rewrite !tier_count_cons_ne, !tier_percents_cons_ne by (rewrite E; done).
      rewrite fmap_cons, <- !app_assoc. simpl. f_equal; lia.
    + rewrite (tier_count_cons_eq "YELLOW"), (tier_percents_cons_eq "YELLOW") by done.
      rewrite !tier_count_cons_ne, !tier_percents_cons_ne by (rewrite E; done).
      rewrite fmap_cons, <- !app_assoc. simpl. f_equal; lia.
    + rewrite (tier_count_cons_eq "RED"), (tier_percents_cons_eq "RED") by done.
      rewrite !tier_count_cons_ne, !tier_percents_cons_ne by (rewrite E; done).
      rewrite fmap_cons, <- !app_assoc. simpl. f_equal; lia.
Qed.

Lemma run_loop_spec (reqs : list Requirement) :
  run_loop reqs
  = {| ls_g := tier_count "GREEN" reqs;
       ls_y := tier_count "YELLOW" reqs;
       ls_r := tier_count "RED" reqs;
       green_percents := tier_percents "GREEN" reqs;
       yellow_percents := tier_percents "YELLOW" reqs;
       red_percents := tier_percents "RED" reqs;
       ls_details := detail_of <$> reqs |}.
Proof. unfold run_loop. rewrite foldl_loop_body. done. Qed.

(** The three tiers partition the list. *)
Lemma tier_count_total (reqs : list Requirement) :
  tier_count "GREEN" reqs + tier_count "YELLOW" reqs + tier_count "RED" reqs
  = Z.of_nat (length reqs).
Proof.
  induction reqs as [|rq reqs IH]; [done|].
  destruct (tier_of_cases rq) as [E|[E|E]].
  - rewrite (tier_count_cons_eq "GREEN") by done.
    rewrite !tier_count_cons_ne by (rewrite E; done). simpl length. lia.
  - rewrite (tier_count_cons_eq "YELLOW") by done.
    rewrite !tier_count_cons_ne by (rewrite E; done). simpl length. lia.
  - rewrite (tier_count_cons_eq "RED") by done.
    rewrite !tier_count_cons_ne by (rewrite E; done). simpl length. lia.
Qed.

(* ===================================================================== *)
(** ** [calculate_block_score] in closed form *)
(* ===================================================================== *)

Lemma numerical_safety_finite (q : Q) : numerical_safety (Finite q) = Finite q.
Proof.
  unfold numerical_safety, is_infinite. simpl.
  by rewrite Qeq_bool_refl.
Qed.

Lemma tier_count_pos_of_nonempty (reqs : list Requirement) :
  reqs <> [] ->
  0 < tier_count "GREEN" reqs + tier_count "YELLOW" reqs + tier_count "RED" reqs.
Proof.
  intros H. rewrite tier_count_total. destruct reqs; [done|]. simpl length. lia.
Qed.

(** On a non-empty list neither early return is taken. *)
Lemma calculate_block_score_nonempty (reqs : list Requirement) (bt : BlockType) :
  reqs <> [] ->
  calculate_block_score reqs bt
  = let cs := phase1 bt (tier_count "GREEN" reqs) (tier_count "YELLOW" reqs)
                (tier_count "RED" reqs) in
    let ga := _average (tier_percents "GREEN" reqs) in
    let ya := _average (tier_percents "YELLOW" reqs) in
    let ra := _average (tier_percents "RED" reqs) in
    {| color_score := cs;
       percent_score := phase2 ga ya ra cs;
       g := tier_count "GREEN" reqs;
       y := tier_count "YELLOW" reqs;
       r := tier_count "RED" reqs;
       details := detail_of <$> reqs;
       g_avg := ga; y_avg := ya; r_avg := ra |}.
Proof.
  intros Hne. pose proof (tier_count_pos_of_nonempty reqs Hne) as Hpos.
  unfold calculate_block_score. destruct reqs as [|rq reqs]; [done|].
  rewrite run_loop_spec. cbv zeta.
  simpl ls_g; simpl ls_y; simpl ls_r; simpl green_percents;
    simpl yellow_percents; simpl red_percents; simpl ls_details.
  destruct (Z.eqb_spec
    (tier_count "GREEN" (rq :: reqs) + tier_count "YELLOW" (rq :: reqs)
     + tier_count "RED" (rq :: reqs)) 0) as [E|_]; [lia|].
  by rewrite numerical_safety_finite.
Qed.

Lemma calculate_block_score_empty (bt : BlockType) :
  calculate_block_score [] bt = zero_block_score.
Proof. done. Qed.

(** The tier counts recorded in the result, for every list. *)
Lemma calculate_block_score_counts (reqs : list Requirement) (bt : BlockType) :
  g (calculate_block_score reqs bt) = tier_count "GREEN" reqs
  /\ y (calculate_block_score reqs bt) = tier_count "YELLOW" reqs
  /\ r (calculate_block_score reqs bt) = tier_count "RED" reqs.
Proof.
  destruct reqs as [|rq reqs]; [done|].
  by rewrite calculate_block_score_nonempty.
Qed.

Lemma calculate_block_score_details (reqs : list Requirement) (bt : BlockType) :
  details (calculate_block_score reqs bt) = detail_of <$> reqs.
Proof.
  destruct reqs as [|rq reqs]; [done|].
  by rewrite calculate_block_score_nonempty.
Qed.

(* ===================================================================== *)
(** ** Block scorer: counts, details, classification *)
(* ===================================================================== *)

(** [n] of the result is the length of the list. *)
Lemma block_score_n (reqs : list Requirement) (bt : BlockType) :
  n (calculate_block_score reqs bt) = Z.of_nat (length reqs)
  /\ 0 <= n (calculate_block_score reqs bt).
Proof.
  unfold n. destruct (calculate_block_score_counts reqs bt) as (-> & -> & ->).
  rewrite tier_count_total. lia.
Qed.

(** C8: for every requirement list and block kind, the returned
    [BlockScore] has [g + y + r = n = length of the list], where [g], [y],
    [r] are the numbers of requirements of the three tiers, and its
    [details] hold exactly one [RequirementDetail] per requirement, in
    input order, with the clamped percentage, the tier label derived from
    it, and the name, evidence and comment copied from the requirement. *)
Theorem block_score_counts_and_details
    (reqs : list Requirement) (bt : BlockType) :
  let b := calculate_block_score reqs bt in
  g b + y b + r b = Z.of_nat (length reqs)
  /\ n b = Z.of_nat (length reqs)
  /\ g b = tier_count "GREEN" reqs
  /\ y b = tier_count "YELLOW" reqs
  /\ r b = tier_count "RED" reqs
  /\ length (details b) = length reqs
  /\ details b
     = (fun rq =>
          {| name := req_name rq;
             percent := _clamp (match_percent rq) 0 100;
             color := _determine_color (_clamp (match_percent rq) 0 100);
             evidence := req_evidence rq;
             comment := difference_comment rq |}) <$> reqs.
Proof.
  cbv zeta. unfold n.
  destruct (calculate_block_score_counts reqs bt) as (-> & -> & ->).
  rewrite calculate_block_score_details, length_fmap.
  pose proof (tier_count_total reqs). repeat split; done.
Qed.

(** C6: every integer percentage is clamped to [0,100] (below 0 gives 0,
    above 100 gives 100, anything between is kept) and the clamped value is
    classified without error: at least 70 is "GREEN" (High), from 30 up to
    69 is "YELLOW" (Partial), below 30 is "RED" (Low); 70, 69, 30 and 29
    map to High, Partial, Partial and Low.  The label recorded for a
    requirement is this classification of its clamped percentage. *)
Theorem clamp_then_classify (p : Z) :
  let c := _clamp p 0 100 in
  0 <= c <= 100
  /\ c = (if p <? 0 then 0 else if 100 <? p then 100 else p)
  /\ (70 <= c <-> _determine_color c = "GREEN")
  /\ (30 <= c < 70 <-> _determine_color c = "YELLOW")
  /\ (c < 30 <-> _determine_color c = "RED")
  /\ _determine_color 70 = "GREEN"
  /\ _determine_color 69 = "YELLOW"
  /\ _determine_color 30 = "YELLOW"
  /\ _determine_color 29 = "RED"
  /\ (forall rq bt, match_percent rq = p ->
        (percent <$> details (calculate_block_score [rq] bt)) = [c]
        /\ (color <$> details (calculate_block_score [rq] bt))
           = [_determine_color c]).
Proof.
  cbv zeta. split; [apply clamp_range|]. split.
  { unfold _clamp. destruct (Z.ltb_spec p 0); [lia|].
    destruct (Z.ltb_spec 100 p); lia. }
  destruct (determine_color_iff (_clamp p 0 100)) as (Hg & Hy & Hr).
  do 3 (split; [done|]). do 4 (split; [done|]).
  intros rq bt H. rewrite calculate_block_score_details. simpl. by rewrite H.
Qed.

(** A percentage far out of range is clamped and classified, not
    rejected. *)
Lemma clamp_then_classify_witness :
  (percent <$> details (calculate_block_score [req 250] TASKS)) = [100]
  /\ (color <$> details (calculate_block_score [req 250] TASKS)) = ["GREEN"].
Proof.
  destruct (clamp_then_classify 250) as (_ & _ & _ & _ & _ & _ & _ & _ & _ & H).
  exact (H (req 250) TASKS eq_refl).
Defined.

(* ===================================================================== *)
(** ** Block scorer: the two phases *)
(* ===================================================================== *)

Lemma tier_count_nil tier : tier_count tier [] = 0.
Proof. done. Qed.

(** C2: for every requirement list with at least one High or Partial
    requirement, [color_score] is
    [((g + 0.5*y)*(g+y) + 0.01*r) / n^2] for the Mandatory block and
    [(g + 0.5*y + 0.01*r) / n] for the Preferred and Tasks blocks, where
    [g], [y], [r] count the requirements of the three tiers after clamping
    and classification and [n = g + y + r]. *)
Theorem color_score_formula (reqs : list Requirement) (bt : BlockType) :
  let g := inject_Z (tier_count "GREEN" reqs) in
  let y := inject_Z (tier_count "YELLOW" reqs) in
  let r := inject_Z (tier_count "RED" reqs) in
  let n := (g + y + r)%Q in
  0 < tier_count "GREEN" reqs + tier_count "YELLOW" reqs ->
  (color_score (calculate_block_score reqs bt)
   == match bt with
      | MANDATORY => ((g + 0.5 * y) * (g + y) + 0.01 * r) / n ^ 2
      | PREFERRED | TASKS => (g + 0.5 * y + 0.01 * r) / n
      end)%Q.
Proof.
  cbv zeta. intros Hgy.
  assert (reqs <> []) as Hne by (intros ->; rewrite !tier_count_nil in Hgy; lia).
  rewrite calculate_block_score_nonempty by done. cbv zeta. simpl color_score.
  unfold phase1.
  destruct (Z.eqb_spec (tier_count "GREEN" reqs + tier_count "YELLOW" reqs) 0)
    as [E|_]; [lia|].
  unfold float, YELLOW_WEIGHT, RED_WEIGHT.
  rewrite !inject_Z_plus.
  destruct bt; simpl Qpower; reflexivity.
Qed.

(** The block [100, 100] of the specification: Mandatory scores
    [(2*2)/4 = 1]. *)
Lemma color_score_formula_witness :
  (color_score (calculate_block_score [req 100; req 100] MANDATORY) == 1)%Q.
Proof.
  rewrite (color_score_formula [req 100; req 100] MANDATORY); [|vm_compute; done].
  vm_compute. done.
Defined.

Lemma tier_count_all_red (reqs : list Requirement) :
  Forall (fun rq => tier_of rq = "RED") reqs ->
  tier_count "GREEN" reqs = 0 /\ tier_count "YELLOW" reqs = 0.
Proof.
  induction 1 as [|rq reqs E _ [IHg IHy]]; [done|].
  rewrite !tier_count_cons_ne by (rewrite E; done). done.
Qed.

Lemma percent_score_formula (reqs : list Requirement) (bt : BlockType) :
  let b := calculate_block_score reqs bt in
  (percent_score b
   == (g_avg b / 100 + 0.5 * (y_avg b / 100) + 0.01 * (r_avg b / 100))
      * color_score b)%Q.
Proof.
  cbv zeta. destruct reqs as [|rq reqs]; [done|].
  rewrite calculate_block_score_nonempty by done. cbv zeta.
  simpl percent_score; simpl color_score; simpl g_avg; simpl y_avg; simpl r_avg.
  unfold phase2, YELLOW_WEIGHT, RED_WEIGHT. field.
Qed.

(** C5: an empty requirement list yields the all-zero [BlockScore] (zero
    scores, zero counts, zero averages, no details) for every block kind;
    a non-empty list whose requirements are all Low yields
    [color_score = 0]; [percent_score] is
    [(g_avg/100 + 0.5*y_avg/100 + 0.01*r_avg/100) * color_score], hence 0
    whenever [color_score] is 0; and the numerical guard through which the
    computed [percent_score] passes turns not-a-number and both infinities
    into 0.0 and keeps every finite value. *)
Theorem degenerate_blocks_score_zero (reqs : list Requirement) (bt : BlockType) :
  let b := calculate_block_score reqs bt in
  calculate_block_score [] bt
  = {| color_score := 0%Q; percent_score := 0%Q; g := 0; y := 0; r := 0;
       details := []; g_avg := 0%Q; y_avg := 0%Q; r_avg := 0%Q |}
  /\ (reqs <> [] -> Forall (fun rq => tier_of rq = "RED") reqs ->
      color_score b = 0%Q)
  /\ (percent_score b
      == (g_avg b / 100 + 0.5 * (y_avg b / 100) + 0.01 * (r_avg b / 100))
         * color_score b)%Q
  /\ ((color_score b == 0)%Q -> (percent_score b == 0)%Q)
  /\ (reqs <> [] ->
      Finite (percent_score b)
      = numerical_safety
          (Finite (phase2 (g_avg b) (y_avg b) (r_avg b) (color_score b))))
  /\ numerical_safety NaN = Finite 0%Q
  /\ numerical_safety PosInf = Finite 0%Q
  /\ numerical_safety NegInf = Finite 0%Q
  /\ (forall q, numerical_safety (Finite q) = Finite q).
Proof.
  cbv zeta. split; [done|]. split.
  { intros Hne Hred. destruct (tier_count_all_red reqs Hred) as [Hg Hy].
    rewrite calculate_block_score_nonempty by done. cbv zeta. simpl color_score.
    unfold phase1. by rewrite Hg, Hy. }
  split; [apply percent_score_formula|]. split.
  { intros H0. rewrite (percent_score_formula reqs bt), H0. ring. }
  split.
  { intros Hne. rewrite calculate_block_score_nonempty by done. cbv zeta.
    simpl. by rewrite numerical_safety_finite. }
  repeat split; try done. apply numerical_safety_finite.
Qed.

(** An all-Low Mandatory block: three requirements below 30 score zero in
    both phases. *)
Lemma degenerate_blocks_score_zero_witness :
  color_score (calculate_block_score [req 10; req 29; req (-5)] MANDATORY) = 0%Q
  /\ (percent_score (calculate_block_score [req 10; req 29; req (-5)] MANDATORY)
      == 0)%Q.
Proof.
  destruct (degenerate_blocks_score_zero [req 10; req 29; req (-5)] MANDATORY)
    as (_ & Hcolor & _ & Hpercent & _).
  assert (color_score (calculate_block_score [req 10; req 29; req (-5)] MANDATORY)
          = 0%Q) as E.
  { apply Hcolor; [done|]. repeat constructor. }
  split; [exact E|]. apply Hpercent. rewrite E. reflexivity.
Defined.

(* ===================================================================== *)
(** ** Block scorer: ranges of the two scores *)
(* ===================================================================== *)

Lemma inject_Z_of_nat_S (k : nat) :
  (inject_Z (Z.of_nat (S k)) == inject_Z (Z.of_nat k) + 1)%Q.
Proof. rewrite Nat2Z.inj_succ, <- Z.add_1_r, inject_Z_plus. reflexivity. Qed.

Lemma inject_Z_of_nat_nonneg (k : nat) : (0 <= inject_Z (Z.of_nat k))%Q.
Proof. change 0%Q with (inject_Z 0). rewrite <- Zle_Qle. lia. Qed.

(** A running total over values between [a] and [b] grows by between
    [a * len] and [b * len]. *)
Lemma foldl_Qplus_bounds (a b : Q) (l : list Q) (acc : Q) :
  Forall (fun q => (a <= q <= b)%Q) l ->
  (acc + a * inject_Z (Z.of_nat (length l)) <= foldl Qplus acc l
   <= acc + b * inject_Z (Z.of_nat (length l)))%Q.
Proof.
  intros Hall. revert acc.
  induction Hall as [|q l [Hq1 Hq2] _ IH]; intros acc.
  - simpl. change (inject_Z (Z.of_nat 0)) with 0%Q. lra.
  - simpl length. rewrite inject_Z_of_nat_S. simpl foldl.
    destruct (IH (acc + q)%Q) as [IH1 IH2]. lra.
Qed.

Lemma Qsum_bounds (a b : Q) (l : list Q) :
  Forall (fun q => (a <= q <= b)%Q) l ->
  (a * inject_Z (Z.of_nat (length l)) <= Qsum l
   <= b * inject_Z (Z.of_nat (length l)))%Q.
Proof.
  intros Hall. destruct (foldl_Qplus_bounds a b l 0 Hall) as [H1 H2].
  unfold Qsum. lra.
Qed.

(** The mean of a non-empty list lies between any bounds of its members. *)
Lemma average_bounds (a b : Q) (l : list Q) :
  l <> [] ->
  Forall (fun q => (a <= q <= b)%Q) l ->
  (a <= _average l <= b)%Q.
Proof.
  intros Hne Hall. destruct (Qsum_bounds a b l Hall) as [H1 H2].
  destruct l as [|q l]; [done|]. unfold _average, float.
  assert (0 < inject_Z (Z.of_nat (length (q :: l))))%Q as Hpos.
  { change 0%Q with (inject_Z 0). rewrite <- Zlt_Qlt. simpl length. lia. }
  split.
  - apply Qle_shift_div_l; done.
  - apply Qle_shift_div_r; done.
Qed.

(** The mean of a possibly empty list of values in [0, b]. *)
Lemma average_range (b : Q) (l : list Q) :
  (0 <= b)%Q ->
  Forall (fun q => (0 <= q <= b)%Q) l ->
  (0 <= _average l <= b)%Q.
Proof.
  intros Hb Hall. destruct l as [|q l]; [simpl; lra|].
  by apply average_bounds.
Qed.

(** The percentages collected for one tier lie in the tier's range. *)
Lemma tier_percents_range (tier : string) (lo hi : Z) (reqs : list Requirement) :
  (forall c, 0 <= c <= 100 -> _determine_color c = tier -> lo <= c <= hi) ->
  Forall (fun q => (inject_Z lo <= q <= inject_Z hi)%Q) (tier_percents tier reqs).
Proof.
  intros Htier. unfold tier_percents, tier_members.
  apply Forall_fmap, Forall_forall. intros rq Hin.
  apply list_elem_of_filter in Hin as [Hcol _]. unfold tier_of in Hcol.
  simpl. unfold float. rewrite <- !Zle_Qle.
  apply Htier; [apply clamp_range | done].
Qed.

Lemma green_percents_range (reqs : list Requirement) :
  Forall (fun q => (0 <= q <= 100)%Q) (tier_percents "GREEN" reqs).
Proof.
  apply (tier_percents_range "GREEN" 0 100). intros c Hc _. done.
Qed.

Lemma yellow_percents_range (reqs : list Requirement) :
  Forall (fun q => (0 <= q <= 69)%Q) (tier_percents "YELLOW" reqs).
Proof.
  apply (tier_percents_range "YELLOW" 0 69). intros c Hc Hy.
  apply (determine_color_iff c) in Hy. lia.
Qed.

Lemma red_percents_range (reqs : list Requirement) :
  Forall (fun q => (0 <= q <= 29)%Q) (tier_percents "RED" reqs).
Proof.
  apply (tier_percents_range "RED" 0 29). intros c Hc Hr.
  apply (determine_color_iff c) in Hr. lia.
Qed.

(** Phase 1 stays in [0,1] for any counts. *)
Lemma phase1_range (bt : BlockType) (g y r : Z) :
  0 <= g -> 0 <= y -> 0 <= r ->
  (0 <= phase1 bt g y r <= 1)%Q.
Proof.
  intros Hg Hy Hr. unfold phase1.
  destruct (Z.eqb_spec (g + y) 0) as [E|Hgy]; [lra|].
  assert (1 <= g + y) as Hone by lia.
  unfold float, YELLOW_WEIGHT, RED_WEIGHT. rewrite !inject_Z_plus.
  rewrite Zle_Qle in Hg, Hy, Hr, Hone. rewrite inject_Z_plus in Hone.
  change (inject_Z 0) with 0%Q in *. change (inject_Z 1) with 1%Q in *.
  set (G := inject_Z g) in *. set (Y := inject_Z y) in *.
  set (R := inject_Z r) in *.
  destruct bt.
  - assert (0 < (G + Y + R) * (G + Y + R))%Q as Hpos by nra.
    split.
    + apply Qle_shift_div_l; [done|]. nra.
    + apply Qle_shift_div_r; [done|]. nra.
  - assert (0 < G + Y + R)%Q as Hpos by lra.
    split.
    + apply Qle_shift_div_l; [done|]. lra.
    + apply Qle_shift_div_r; [done|]. lra.
  - assert (0 < G + Y + R)%Q as Hpos by lra.
    split.
    + apply Qle_shift_div_l; [done|]. lra.
    + apply Qle_shift_div_r; [done|]. lra.
Qed.

(** Phase 2 is at most [1 + 0.5*0.69 + 0.01*0.29 = 1.3479] times the
    color score. *)
Lemma phase2_range (ga ya ra cs : Q) :
  (0 <= ga <= 100)%Q -> (0 <= ya <= 69)%Q -> (0 <= ra <= 29)%Q -> (0 <= cs)%Q ->
  (0 <= phase2 ga ya ra cs <= 1.3479 * cs)%Q.
Proof.
  intros Hg Hy Hr Hc. unfold phase2, YELLOW_WEIGHT, RED_WEIGHT, Qdiv.
  change (/ 100.0)%Q with (10 # 1000)%Q. split.
  - apply Qmult_le_0_compat; lra.
  - apply Qmult_le_compat_r; lra.
Qed.

(** Both scores of a block, within their ranges. *)
Lemma block_scores_range (reqs : list Requirement) (bt : BlockType) :
  (0 <= color_score (calculate_block_score reqs bt) <= 1)%Q
  /\ (0 <= percent_score (calculate_block_score reqs bt)
      <= 1.3479 * color_score (calculate_block_score reqs bt))%Q.
Proof.
  destruct reqs as [|rq reqs].
  { simpl. lra. }
  rewrite calculate_block_score_nonempty by done. cbv zeta.
  simpl color_score; simpl percent_score.
  set (rs := rq :: reqs).
  pose proof (phase1_range bt _ _ _ (tier_count_nonneg "GREEN" rs)
    (tier_count_nonneg "YELLOW" rs) (tier_count_nonneg "RED" rs)) as Hcs.
  pose proof (average_range 100 _ ltac:(lra) (green_percents_range rs)) as Hga.
  pose proof (average_range 69 _ ltac:(lra) (yellow_percents_range rs)) as Hya.
  pose proof (average_range 29 _ ltac:(lra) (red_percents_range rs)) as Hra.
  pose proof (phase2_range _ _ _ _ Hga Hya Hra (proj1 Hcs)) as Hps.
  done.
Qed.

(** C7 (as the code has it): for every requirement list and block kind,
    [0 <= color_score <= 1] and
    [0 <= percent_score <= 1.3479 * color_score], so [percent_score] never
    exceeds [1.3479 = 1 + 0.5*0.69 + 0.01*0.29]; it is not bounded by 1. *)
Theorem block_scores_bounded (reqs : list Requirement) (bt : BlockType) :
  let b := calculate_block_score reqs bt in
  (0 <= color_score b <= 1)%Q
  /\ (0 <= percent_score b <= 1.3479 * color_score b)%Q
  /\ (percent_score b <= 1.3479)%Q.
Proof.
  cbv zeta. destruct reqs as [|rq reqs].
  { simpl. lra. }
  rewrite calculate_block_score_nonempty by done. cbv zeta.
  simpl color_score; simpl percent_score.
  set (rs := rq :: reqs).
  pose proof (phase1_range bt _ _ _ (tier_count_nonneg "GREEN" rs)
    (tier_count_nonneg "YELLOW" rs) (tier_count_nonneg "RED" rs)) as Hcs.
  pose proof (average_range 100 _ ltac:(lra) (green_percents_range rs)) as Hga.
  pose proof (average_range 69 _ ltac:(lra) (yellow_percents_range rs)) as Hya.
  pose proof (average_range 29 _ ltac:(lra) (red_percents_range rs)) as Hra.
  pose proof (phase2_range _ _ _ _ Hga Hya Hra (proj1 Hcs)) as Hps.
  split; [done|]. split; [done|]. lra.
Qed.

(** C7, as stated, fails: a Mandatory block with one requirement at 100
    and one at 69 has [color_score = 0.75] and
    [percent_score = (1 + 0.5*0.69) * 0.75 = 1.00875 > 1]. *)
Lemma percent_score_not_bounded_by_one :
  let b := calculate_block_score [req 100; req 69] MANDATORY in
  ~ ((0 <= color_score b <= 1)%Q /\ (0 <= percent_score b <= 1)%Q).
Proof.
  cbv zeta. intros [_ [_ H]]. revert H. vm_compute. intros H. by apply H.
Qed.

(* ===================================================================== *)
(** ** Weight redistributor *)
(* ===================================================================== *)

(** The three lookups of the redistributed weights, by emptiness flags. *)
Lemma redistribute_weights_lookup (m p t : list Requirement) :
  let w := redistribute_weights m p t in
  w !! MANDATORY
  = Some (match is_empty m, is_empty p && is_empty t with
          | true, true => (0.0 + PREFERRED_WEIGHT + TASKS_WEIGHT)%Q
          | false, true => (MANDATORY_WEIGHT + PREFERRED_WEIGHT + TASKS_WEIGHT)%Q
          | true, false => 0.0%Q
          | false, false => MANDATORY_WEIGHT
          end)
  /\ w !! PREFERRED
     = Some (match is_empty p, is_empty t with
             | true, _ => 0.0%Q
             | false, true => (PREFERRED_WEIGHT + TASKS_WEIGHT)%Q
             | false, false => PREFERRED_WEIGHT
             end)
  /\ w !! TASKS
     = Some (match is_empty t, is_empty p with
             | true, _ => 0.0%Q
             | false, true => (TASKS_WEIGHT + PREFERRED_WEIGHT)%Q
             | false, false => TASKS_WEIGHT
             end).
Proof.
  cbv zeta. unfold redistribute_weights.
  destruct (is_empty m), (is_empty p), (is_empty t); simpl andb; cbv iota zeta;
    repeat split; by simplify_map_eq.
Qed.

Lemma redistribute_weights_total_lookup (m p t : list Requirement) (k : BlockType) :
  redistribute_weights m p t !! k = Some (redistribute_weights m p t !!! k).
Proof.
  destruct (redistribute_weights_lookup m p t) as (HM & HP & HT).
  destruct k; rewrite lookup_total_alt.
  - by rewrite HM.
  - by rewrite HP.
  - by rewrite HT.
Qed.

(** C4: the redistributed weights depend only on which of the three lists
    are empty.  Mandatory gets 0.0 in place of its default when it is
    empty; on top of that, when Preferred and Tasks are both empty their
    two weights are added onto Mandatory's and both become 0.0; when only
    Preferred is empty its weight moves onto Tasks; when only Tasks is
    empty its weight moves onto Preferred; when neither is empty both keep
    their defaults.  With Mandatory and Tasks non-empty and Preferred empty
    the weights are 1.0, 0.0, 0.4; with Mandatory non-empty and both others
    empty they are 1.4, 0.0, 0.0.  All three keys are always present. *)
Theorem redistribute_weights_rules (m p t : list Requirement) :
  let w := redistribute_weights m p t in
  let base := if is_empty m then 0.0%Q else MANDATORY_WEIGHT in
  (forall m' p' t' : list Requirement,
      is_empty m' = is_empty m -> is_empty p' = is_empty p ->
      is_empty t' = is_empty t -> redistribute_weights m' p' t' = w)
  /\ (forall k, is_Some (w !! k))
  /\ (if is_empty p && is_empty t then
        (w !!! MANDATORY == base + PREFERRED_WEIGHT + TASKS_WEIGHT)%Q
        /\ (w !!! PREFERRED == 0)%Q /\ (w !!! TASKS == 0)%Q
      else if is_empty p then
        (w !!! MANDATORY == base)%Q
        /\ (w !!! PREFERRED == 0)%Q
        /\ (w !!! TASKS == TASKS_WEIGHT + PREFERRED_WEIGHT)%Q
      else if is_empty t then
        (w !!! MANDATORY == base)%Q
        /\ (w !!! PREFERRED == PREFERRED_WEIGHT + TASKS_WEIGHT)%Q
        /\ (w !!! TASKS == 0)%Q
      else
        (w !!! MANDATORY == base)%Q
        /\ (w !!! PREFERRED == PREFERRED_WEIGHT)%Q
        /\ (w !!! TASKS == TASKS_WEIGHT)%Q)
  /\ (is_empty m = false -> is_empty p = true -> is_empty t = false ->
      (w !!! MANDATORY == 1.0)%Q /\ (w !!! PREFERRED == 0.0)%Q
      /\ (w !!! TASKS == 0.4)%Q)
  /\ (is_empty m = false -> is_empty p = true -> is_empty t = true ->
      (w !!! MANDATORY == 1.4)%Q /\ (w !!! PREFERRED == 0.0)%Q
      /\ (w !!! TASKS == 0.0)%Q).
Proof.
  cbv zeta. split.
  { intros m' p' t' Hm Hp Ht. unfold redistribute_weights.
    by rewrite Hm, Hp, Ht. }
  split.
  { intros k. rewrite redistribute_weights_total_lookup. by eexists. }
  destruct (redistribute_weights_lookup m p t) as (HM & HP & HT).
  rewrite !lookup_total_alt, HM, HP, HT. simpl default.
  unfold MANDATORY_WEIGHT, PREFERRED_WEIGHT, TASKS_WEIGHT.
  destruct (is_empty m), (is_empty p), (is_empty t); simpl andb; cbv iota;
    repeat split; try done; intros; try done.
Qed.

(** The two weight tables of the specification, on concrete blocks. *)
Lemma redistribute_weights_rules_witness :
  ((redistribute_weights [req 80] [] [req 40] !!! MANDATORY == 1.0)%Q
   /\ (redistribute_weights [req 80] [] [req 40] !!! PREFERRED == 0.0)%Q
   /\ (redistribute_weights [req 80] [] [req 40] !!! TASKS == 0.4)%Q)
  /\ ((redistribute_weights [req 80] [] [] !!! MANDATORY == 1.4)%Q
      /\ (redistribute_weights [req 80] [] [] !!! PREFERRED == 0.0)%Q
      /\ (redistribute_weights [req 80] [] [] !!! TASKS == 0.0)%Q)
  /\ redistribute_weights [req 5; req 6] [] [req 7]
     = redistribute_weights [req 80] [] [req 40].
Proof.
  split; [|split].
  - destruct (redistribute_weights_rules [req 80] [] [req 40])
      as (_ & _ & _ & H & _).
    by apply H.
  - destruct (redistribute_weights_rules [req 80] [] [])
      as (_ & _ & _ & _ & H).
    by apply H.
  - destruct (redistribute_weights_rules [req 80] [] [req 40])
      as (H & _).
    by apply H.
Defined.

(* ===================================================================== *)
(** ** The sort: a permutation of its input *)
(* ===================================================================== *)

Section SortPermutation.
Context {A : Type} (cmp : A -> A -> Z).

Lemma insert_sorted_perm (pivot : A) (l : list A) :
  insert_sorted cmp pivot l ≡ₚ pivot :: l.
Proof.
  induction l as [|e l IH]; simpl; [done|].
  destruct (key_lt cmp pivot e); [done|].
  rewrite IH. apply Permutation_swap.
Qed.

Lemma foldl_insert_sorted_perm (l sorted : list A) :
  foldl (fun sorted pivot => insert_sorted cmp pivot sorted) sorted l
  ≡ₚ sorted ++ l.
Proof.
  revert sorted. induction l as [|x l IH]; intros sorted; simpl.
  - by rewrite app_nil_r.
  - rewrite IH, insert_sorted_perm. simpl. apply Permutation_middle.
Qed.

Lemma list_sort_perm (l : list A) : list_sort cmp l ≡ₚ l.
Proof. unfold list_sort. by rewrite foldl_insert_sorted_perm. Qed.

Lemma list_sort_length (l : list A) : length (list_sort cmp l) = length l.
Proof. by rewrite list_sort_perm. Qed.
End SortPermutation.

(* ===================================================================== *)
(** ** Ranker: scoring loop and rank assignment *)
(* ===================================================================== *)

Lemma foldl_score_item (items : list ItemInput) (scores : list ItemScore) :
  foldl (fun scores item => scores ++ [score_item item]) scores items
  = scores ++ (score_item <$> items).
Proof.
  revert scores. induction items as [|it items IH]; intros scores; simpl.
  - by rewrite app_nil_r.
  - rewrite IH, <- app_assoc. done.
Qed.

(** The scoring loop appends one [ItemScore] per item, in input order. *)
Lemma score_items_fmap (items : list ItemInput) :
  score_items items = score_item <$> items.
Proof. unfold score_items. by rewrite foldl_score_item. Qed.

Lemma sorted_scores_perm (items : list ItemInput) :
  sorted_scores items ≡ₚ score_item <$> items.
Proof. unfold sorted_scores. by rewrite list_sort_perm, score_items_fmap. Qed.

Lemma sorted_scores_length (items : list ItemInput) :
  length (sorted_scores items) = length items.
Proof. by rewrite sorted_scores_perm, length_fmap. Qed.

(** No score carries a rank before the final loop. *)
Lemma sorted_scores_unranked (items : list ItemInput) :
  Forall (fun s => rank s = None) (sorted_scores items).
Proof.
  rewrite sorted_scores_perm. apply Forall_fmap, Forall_forall. done.
Qed.

Lemma assign_ranks_imap (scores : list ItemScore) (start : Z) :
  assign_ranks start scores
  = imap (fun i s => set_rank s (start + Z.of_nat i)) scores.
Proof.
  revert start. induction scores as [|s scores IH]; intros start; [done|].
  simpl assign_ranks. rewrite imap_cons, IH. f_equal.
  - f_equal. lia.
  - apply imap_ext. intros i x _. simpl. f_equal. lia.
Qed.

Lemma assign_ranks_rank (scores : list ItemScore) (start : Z) :
  rank <$> assign_ranks start scores
  = Some <$> seqZ start (Z.of_nat (length scores)).
Proof.
  revert start. induction scores as [|s scores IH]; intros start; [done|].
  simpl assign_ranks. rewrite fmap_cons, IH. simpl length.
  rewrite (seqZ_cons start) by lia. rewrite fmap_cons. simpl rank.
  do 3 f_equal; lia.
Qed.

Lemma assign_ranks_item_id (scores : list ItemScore) (start : Z) :
  item_id <$> assign_ranks start scores = item_id <$> scores.
Proof.
  revert start. induction scores as [|s scores IH]; intros start; [done|].
  simpl. by rewrite IH.
Qed.

Lemma assign_ranks_length (scores : list ItemScore) (start : Z) :
  length (assign_ranks start scores) = length scores.
Proof.
  revert start. induction scores as [|s scores IH]; intros start; [done|].
  simpl. by rewrite IH.
Qed.

(** Every ranked score is some unranked score with its rank set. *)
Lemma assign_ranks_elem (scores : list ItemScore) (start : Z) (s' : ItemScore) :
  s' ∈ assign_ranks start scores ->
  exists s idx, s ∈ scores /\ s' = set_rank s idx.
Proof.
  revert start. induction scores as [|s scores IH]; intros start Hin; simpl in Hin.
  - by apply elem_of_nil in Hin.
  - apply elem_of_cons in Hin as [->|Hin].
    + exists s, start. split; [left|done].
    + destruct (IH _ Hin) as (s0 & idx & Hs0 & ->).
      exists s0, idx. split; [by right|done].
Qed.

(** C9: for every input of [k] items the output carries the ranks
    [1, 2, ..., k] in output order, all different, the [i]-th score of the
    sorted list receiving rank [i] (counting from 1); before this final
    step no score has a rank. *)
Theorem ranks_are_one_to_k (items : list ItemInput) :
  let k := length items in
  let out := rank_items items in
  length out = k
  /\ rank <$> out = Some <$> seqZ 1 (Z.of_nat k)
  /\ NoDup (rank <$> out)
  /\ out = imap (fun i s => set_rank s (1 + Z.of_nat i)) (sorted_scores items)
  /\ Forall (fun s => rank s = None) (sorted_scores items)
  /\ Forall (fun s => rank s = None) (score_items items).
Proof.
  cbv zeta. unfold rank_items.
  rewrite assign_ranks_length, assign_ranks_rank, sorted_scores_length.
  split; [done|]. split; [done|]. split.
  { apply (NoDup_fmap_2 Some), NoDup_seqZ. }
  split; [apply assign_ranks_imap|]. split; [apply sorted_scores_unranked|].
  rewrite score_items_fmap. apply Forall_fmap, Forall_forall. done.
Qed.

(** C10: the output has one [ItemScore] per input item, and its item ids
    are the input's item ids as a multiset: scoring and sorting drop,
    duplicate and invent nothing. *)
Theorem rank_items_keeps_items (items : list ItemInput) :
  length (rank_items items) = length items
  /\ item_id <$> rank_items items ≡ₚ in_item_id <$> items.
Proof.
  unfold rank_items. rewrite assign_ranks_length, sorted_scores_length.
  split; [done|].
  rewrite assign_ranks_item_id, sorted_scores_perm, <- list_fmap_compose.
  done.
Qed.

(* ===================================================================== *)
(** ** Ranker: the weights recorded for an item *)
(* ===================================================================== *)

(** The sum of the redistributed weights: the budget, less Mandatory's
    default weight when the Mandatory list is empty. *)
Lemma redistribute_weights_total (m p t : list Requirement) :
  (total_weight (redistribute_weights m p t)
   == if is_empty m then PREFERRED_WEIGHT + TASKS_WEIGHT else weight_budget)%Q.
Proof.
  unfold total_weight.
  destruct (redistribute_weights_lookup m p t) as (HM & HP & HT).
  rewrite !lookup_total_alt, HM, HP, HT. simpl default.
  unfold weight_budget, MANDATORY_WEIGHT, PREFERRED_WEIGHT, TASKS_WEIGHT.
  destruct (is_empty m), (is_empty p), (is_empty t); simpl andb; cbv iota; done.
Qed.

Lemma block_score_n_zero_iff_empty (reqs : list Requirement) (bt : BlockType) :
  (n (calculate_block_score reqs bt) =? 0) = is_empty reqs.
Proof.
  destruct (block_score_n reqs bt) as [-> _].
  destruct reqs; [done|]. simpl length. simpl is_empty.
  apply Z.eqb_neq. lia.
Qed.

(** Every score in the output is the score of an input item with its rank
    set. *)
Lemma rank_items_elem (items : list ItemInput) (s : ItemScore) :
  s ∈ rank_items items ->
  exists it idx, it ∈ items /\ s = set_rank (score_item it) idx.
Proof.
  intros Hin. apply assign_ranks_elem in Hin as (s0 & idx & Hs0 & ->).
  rewrite sorted_scores_perm in Hs0.
  apply list_elem_of_fmap in Hs0 as (it & -> & Hit). by exists it, idx.
Qed.

(** C3 (as the code has it): for every item in the output of
    [rank_items], the effective weights in [used_weights] sum to the
    configured budget [1.4] when the item's Mandatory block is non-empty,
    and to [PREFERRED_WEIGHT + TASKS_WEIGHT = 0.4] when it is empty, the
    Mandatory weight then being dropped rather than moved. *)
Theorem used_weights_total (items : list ItemInput) :
  (weight_budget == 1.4)%Q
  /\ (PREFERRED_WEIGHT + TASKS_WEIGHT == 0.4)%Q
  /\ (forall it : ItemInput,
        (total_weight (used_weights (score_item it))
         == if is_empty (in_mandatory it) then PREFERRED_WEIGHT + TASKS_WEIGHT
            else weight_budget)%Q)
  /\ Forall (fun s =>
       (total_weight (used_weights s)
        == if n (mandatory s) =? 0 then PREFERRED_WEIGHT + TASKS_WEIGHT
           else weight_budget)%Q)
     (rank_items items).
Proof.
  split; [done|]. split; [done|]. split.
  { intros it. apply redistribute_weights_total. }
  apply Forall_forall. intros s Hs.
  apply rank_items_elem in Hs as (it & idx & _ & ->).
  simpl used_weights; simpl mandatory.
  rewrite block_score_n_zero_iff_empty. apply redistribute_weights_total.
Qed.

(** C3, as stated, fails: an item whose Mandatory block is empty while
    Preferred and Tasks are not gets the weights 0.0, 0.2, 0.2, which sum
    to 0.4, not 1.4. *)
Lemma used_weights_total_not_budget :
  ~ Forall (fun s => (total_weight (used_weights s) == 1.4)%Q)
      (rank_items [item "x" [] [50] [50]]).
Proof.
  intros H. apply Forall_inv in H. revert H. vm_compute. done.
Qed.

(* ===================================================================== *)
(** ** Ranker: the order of the output *)
(* ===================================================================== *)

(** [_compare] answers "a first" exactly when it answers "b first" with
    the arguments exchanged. *)
Lemma compare_antisym (a b : ItemScore) : _compare b a = - _compare a b.
Proof.
  unfold _compare, Qgtb, Qltb.
  set (ca := final_color_score a). set (cb := final_color_score b).
  set (pa := final_percent_score a). set (pb := final_percent_score b).
  assert (Qabs (ca - cb) == Qabs (cb - ca))%Q as Habs.
  { rewrite <- Qabs_opp. apply Qabs_wd. ring. }
  assert (Qle_bool (Qabs (ca - cb)) EPSILON = Qle_bool (Qabs (cb - ca)) EPSILON)
    as ->.
  { apply eq_true_iff_eq. rewrite !Qle_bool_iff, Habs. done. }
  destruct (Qle_bool (Qabs (cb - ca)) EPSILON) eqn:Heps; simpl negb; cbv iota.
  - destruct (Qle_bool (pa - pb) 0) eqn:H1, (Qle_bool (pb - pa) 0) eqn:H2,
      (Qle_bool 0 (pa - pb)) eqn:H3, (Qle_bool 0 (pb - pa)) eqn:H4;
      simpl negb; cbv iota; try done; exfalso;
      try (apply Qle_bool_iff in H1); try (apply Qle_bool_iff in H2);
      try (apply Qle_bool_iff in H3); try (apply Qle_bool_iff in H4);
      try (apply not_true_iff_false in H1; rewrite Qle_bool_iff in H1);
      try (apply not_true_iff_false in H2; rewrite Qle_bool_iff in H2);
      try (apply not_true_iff_false in H3; rewrite Qle_bool_iff in H3);
      try (apply not_true_iff_false in H4; rewrite Qle_bool_iff in H4);
      lra.
  - assert (~ (Qabs (cb - ca) <= EPSILON)%Q) as Hne.
    { rewrite <- Qle_bool_iff, Heps. done. }
    assert (0 <= EPSILON)%Q as He by done.
    destruct (Qle_bool (ca - cb) 0) eqn:H1, (Qle_bool (cb - ca) 0) eqn:H2;
      simpl negb; cbv iota; try done; exfalso;
      try (apply Qle_bool_iff in H1); try (apply Qle_bool_iff in H2);
      try (apply not_true_iff_false in H1; rewrite Qle_bool_iff in H1);
      try (apply not_true_iff_false in H2; rewrite Qle_bool_iff in H2).
    + apply Hne. assert (cb - ca == 0)%Q as -> by lra. done.
    + lra.
Qed.

(** C1 (the code on a two-item input): item A, with two Mandatory
    requirements at 100, has [final_color_score = 1.4]; item B, with
    Mandatory requirements at 100 and 0, has [final_color_score = 0.3535].
    A's score exceeds B's by more than [EPSILON], yet [_compare] puts B
    first, whichever way round the two items are given: B receives rank 1
    and A rank 2. *)
Theorem rank_items_lower_score_first :
  let A := item "A" [100; 100] [] [] in
  let B := item "B" [100; 0] [] [] in
  (final_color_score (score_item A) == 1.4)%Q
  /\ (final_color_score (score_item B) == 0.3535)%Q
  /\ (EPSILON
      < final_color_score (score_item A) - final_color_score (score_item B))%Q
  /\ _compare (score_item B) (score_item A) = -1
  /\ _compare (score_item A) (score_item B) = 1
  /\ (fun s => (item_id s, rank s)) <$> rank_items [A; B]
     = [("B", Some 1); ("A", Some 2)]
  /\ (fun s => (item_id s, rank s)) <$> rank_items [B; A]
     = [("B", Some 1); ("A", Some 2)].
Proof. cbv zeta. vm_compute. repeat split; done. Qed.

(* ===================================================================== *)
(** ** The sort: ordered and stable where the comparison is consistent *)
(* ===================================================================== *)

Lemma filter_none {A : Type} (R : A -> Prop) `{!forall x, Decision (R x)}
    (l : list A) :
  (forall z, z ∈ l -> ~ R z) -> filter R l = [].
Proof.
  induction l as [|e l IH]; intros Hnone; [done|].
  rewrite filter_cons_False by (apply Hnone; left).
  apply IH. intros z Hz. apply Hnone. by right.
Qed.

Section SortOrder.
Context {A : Type} (cmp : A -> A -> Z) (P : A -> Prop).
Hypothesis cmp_asym : forall a b, key_lt cmp a b = true -> key_lt cmp b a = false.
Hypothesis cmp_trans : forall a b c, P a -> P b -> P c ->
  may_precede cmp a b -> may_precede cmp b c -> may_precede cmp a c.

Lemma insert_sorted_Forall (Q : A -> Prop) (pivot : A) (l : list A) :
  Q pivot -> Forall Q l -> Forall Q (insert_sorted cmp pivot l).
Proof. intros Hp Hl. rewrite insert_sorted_perm. by constructor. Qed.

Lemma insert_sorted_sorted (pivot : A) (l : list A) :
  P pivot -> Forall P l ->
  StronglySorted (may_precede cmp) l ->
  StronglySorted (may_precede cmp) (insert_sorted cmp pivot l).
Proof.
  intros Hp Hl Hs. induction l as [|e l IH]; simpl.
  - repeat constructor.
  - apply Forall_cons in Hl as [He Hl].
    apply StronglySorted_inv in Hs as [Hs Hel].
    destruct (key_lt cmp pivot e) eqn:Hlt.
    + constructor; [by constructor|]. constructor.
      * by apply cmp_asym.
      * rewrite Forall_forall in Hel, Hl |- *. intros x Hx.
        apply (cmp_trans pivot e x); auto. by apply cmp_asym.
    + constructor; [by apply IH|].
      apply insert_sorted_Forall; done.
Qed.

Lemma insert_sorted_stable (x pivot : A) (l : list A) :
  P x -> P pivot -> Forall P l ->
  StronglySorted (may_precede cmp) l ->
  filter (fun e => same_key cmp x e) (insert_sorted cmp pivot l)
  = filter (fun e => same_key cmp x e) (l ++ [pivot]).
Proof.
  intros Hx Hp Hl Hs. induction l as [|e l IH]; simpl; [done|].
  apply Forall_cons in Hl as [He Hl].
  apply StronglySorted_inv in Hs as [Hs Hel].
  destruct (key_lt cmp pivot e) eqn:Hlt.
  - destruct (same_key cmp x pivot) eqn:Hxp.
    + (* no member of [e :: l] has the key of [x] *)
      assert (forall z, z ∈ e :: l -> ~ same_key cmp x z) as Hnone.
      { intros z Hz Hxz. unfold same_key in Hxp, Hxz.
        apply andb_prop_elim in Hxz as [Hxz1 Hxz2].
        apply andb_true_iff in Hxp as [Hxp1 Hxp2].
        apply negb_prop_elim, Is_true_false_1 in Hxz1.
        apply negb_true_iff in Hxp2.
        assert (P z) as Hpz.
        { apply elem_of_cons in Hz as [->|Hz]; [done|].
          rewrite Forall_forall in Hl. auto. }
        assert (may_precede cmp z pivot) as Hzp.
        { apply (cmp_trans z x pivot); done. }
        assert (may_precede cmp e pivot) as Hep.
        { apply elem_of_cons in Hz as [->|Hz]; [done|].
          rewrite Forall_forall in Hel.
          apply (cmp_trans e z pivot); auto. }
        unfold may_precede in Hep. congruence. }
      rewrite filter_cons_True by (by rewrite Hxp).
      rewrite (filter_app _ (e :: l) [pivot]).
      assert (filter (fun e0 => same_key cmp x e0) (e :: l) = []) as ->.
      { apply filter_none, Hnone. }
      simpl. rewrite filter_cons_True by (by rewrite Hxp). done.
    + rewrite filter_cons_False by (rewrite Hxp; simpl; tauto).
      rewrite (filter_app _ (e :: l) [pivot]).
      rewrite (filter_cons_False _ pivot) by (rewrite Hxp; simpl; tauto).
      by rewrite filter_nil, app_nil_r.
  - specialize (IH Hl Hs).
    destruct (same_key cmp x e) eqn:Hxe.
    + rewrite !filter_cons_True by (by rewrite Hxe). by rewrite IH.
    + rewrite !filter_cons_False by (rewrite Hxe; simpl; tauto). done.
Qed.

Lemma foldl_insert_sorted_sorted (l sorted : list A) :
  Forall P sorted -> Forall P l ->
  StronglySorted (may_precede cmp) sorted ->
  StronglySorted (may_precede cmp)
    (foldl (fun sorted pivot => insert_sorted cmp pivot sorted) sorted l).
Proof.
  revert sorted. induction l as [|pivot l IH]; intros sorted Hsd Hl Hs; [done|].
  apply Forall_cons in Hl as [Hp Hl]. simpl. apply IH; [|done|].
  - by apply insert_sorted_Forall.
  - by apply insert_sorted_sorted.
Qed.

Lemma foldl_insert_sorted_stable (x : A) (l sorted : list A) :
  P x -> Forall P sorted -> Forall P l ->
  StronglySorted (may_precede cmp) sorted ->
  filter (fun e => same_key cmp x e)
    (foldl (fun sorted pivot => insert_sorted cmp pivot sorted) sorted l)
  = filter (fun e => same_key cmp x e) (sorted ++ l).
Proof.
  intros Hx. revert sorted.
  induction l as [|pivot l IH]; intros sorted Hsd Hl Hs.
  - by rewrite app_nil_r.
  - apply Forall_cons in Hl as [Hp Hl]. simpl. rewrite IH.
    + rewrite filter_app, insert_sorted_stable by done.
      by rewrite <- filter_app, <- app_assoc.
    + by apply insert_sorted_Forall.
    + done.
    + by apply insert_sorted_sorted.
Qed.
End SortOrder.

(** Where the comparison function is consistent on the members of the
    list, the sorted list is ordered: no element is less than one that
    stands before it. *)
Lemma list_sort_sorted {A : Type} (cmp : A -> A -> Z) (l : list A) :
  (forall a b, key_lt cmp a b = true -> key_lt cmp b a = false) ->
  consistent_on cmp l ->
  StronglySorted (may_precede cmp) (list_sort cmp l).
Proof.
  intros Hasym Hcons. unfold list_sort.
  apply (foldl_insert_sorted_sorted cmp (fun a => a ∈ l)); try done.
  - by apply Forall_forall.
  - constructor.
Qed.

(** ... and the sort is stable: the elements with the key of [x] keep
    their input order. *)
Lemma list_sort_stable {A : Type} (cmp : A -> A -> Z) (l : list A) (x : A) :
  (forall a b, key_lt cmp a b = true -> key_lt cmp b a = false) ->
  consistent_on cmp l ->
  x ∈ l ->
  filter (fun e => same_key cmp x e) (list_sort cmp l)
  = filter (fun e => same_key cmp x e) l.
Proof.
  intros Hasym Hcons Hx. unfold list_sort.
  rewrite (foldl_insert_sorted_stable cmp (fun a => a ∈ l)); try done.
  - by apply Forall_forall.
  - constructor.
Qed.

(* ===================================================================== *)
(** ** Ranker: what [_compare] makes of the sort *)
(* ===================================================================== *)

Lemma Qltb_lt (a b : Q) : Qltb a b = true <-> (a < b)%Q.
Proof.
  unfold Qltb. rewrite negb_true_iff, <- not_true_iff_false, Qle_bool_iff.
  split; [apply Qnot_le_lt | apply Qlt_not_le].
Qed.

Lemma Qltb_ge (a b : Q) : Qltb a b = false <-> (b <= a)%Q.
Proof. unfold Qltb. by rewrite negb_false_iff, Qle_bool_iff. Qed.

(** [_compare a b] is negative, so that [a] sorts first, exactly when [b]
    has the greater color score by more than [EPSILON], or the color
    scores are within [EPSILON] and [b] has the greater percent score. *)
Lemma compare_negative_iff (a b : ItemScore) :
  _compare a b < 0
  <-> (EPSILON < final_color_score b - final_color_score a)%Q
      \/ ((Qabs (final_color_score b - final_color_score a) <= EPSILON)%Q
          /\ (final_percent_score a < final_percent_score b)%Q).
Proof.
  unfold _compare, Qgtb.
  set (cd := (final_color_score b - final_color_score a)%Q).
  set (pa := final_percent_score a). set (pb := final_percent_score b).
  assert (0 < EPSILON)%Q as He by done.
  destruct (Qltb EPSILON (Qabs cd)) eqn:Habs.
  - apply Qltb_lt in Habs.
    destruct (Qltb 0 cd) eqn:Hcd.
    + apply Qltb_lt in Hcd. rewrite Qabs_pos in Habs by lra.
      split; [by left | lia].
    + apply Qltb_ge in Hcd. rewrite Qabs_neg in Habs by done.
      split; [lia|]. intros [H|[H _]]; [lra|].
      rewrite Qabs_neg in H by done. lra.
  - apply Qltb_ge in Habs.
    assert (cd <= EPSILON)%Q as Hle.
    { apply Qabs_Qle_condition in Habs. lra. }
    destruct (Qltb 0 (pb - pa)) eqn:Hp.
    + apply Qltb_lt in Hp. split; [|lia]. intros _. right. split; [done|lra].
    + apply Qltb_ge in Hp.
      split.
      * destruct (Qltb (pb - pa) 0); lia.
      * intros [H|[_ H]]; lra.
Qed.

Lemma compare_key_lt_asym (a b : ItemScore) :
  key_lt _compare a b = true -> key_lt _compare b a = false.
Proof.
  unfold key_lt. rewrite (compare_antisym a b).
  intros H. apply Z.ltb_lt in H. apply Z.ltb_ge. lia.
Qed.

(** [a] may stand before [b] under [_compare] exactly when [a]'s color
    score is not above [b]'s by more than [EPSILON] and, if the two are
    within [EPSILON], [a]'s percent score is not above [b]'s. *)
Lemma compare_may_precede_iff (a b : ItemScore) :
  may_precede _compare a b
  <-> (final_color_score a - final_color_score b <= EPSILON)%Q
      /\ ((Qabs (final_color_score a - final_color_score b) <= EPSILON)%Q ->
          (final_percent_score a <= final_percent_score b)%Q).
Proof.
  unfold may_precede, key_lt. rewrite Z.ltb_ge.
  pose proof (compare_negative_iff b a) as Hneg.
  split.
  - intros Hge. split.
    + apply Qnot_lt_le. intros H. apply Z.le_ngt in Hge. apply Hge, Hneg. by left.
    + intros Habs. apply Qnot_lt_le. intros H. apply Z.le_ngt in Hge.
      apply Hge, Hneg. by right.
  - intros [Hc Hp]. apply Z.le_ngt. intros Hlt. apply Hneg in Hlt as [H|[H1 H2]].
    + lra.
    + specialize (Hp H1). lra.
Qed.

Lemma StronglySorted_impl {A : Type} (R S : A -> A -> Prop) (l : list A) :
  (forall a b, R a b -> S a b) -> StronglySorted R l -> StronglySorted S l.
Proof.
  intros HRS. induction 1 as [|a l _ IH Hall]; constructor; [done|].
  eapply Forall_impl; [done|]. auto.
Qed.

(** What the code's sort yields: whenever [_compare] is consistent on the
    scored items, the sorted list is in ascending order of the two keys
    (of two scores, the one standing first has a color score at most
    [EPSILON] above the other's and, when the color scores are within
    [EPSILON], a percent score no greater), and scores with equal keys keep
    the order in which the items were given. *)
Lemma sorted_scores_ascending_stable (items : list ItemInput) :
  consistent_on _compare (score_items items) ->
  StronglySorted
    (fun a b =>
       (final_color_score a - final_color_score b <= EPSILON)%Q
       /\ ((Qabs (final_color_score a - final_color_score b) <= EPSILON)%Q ->
           (final_percent_score a <= final_percent_score b)%Q))
    (sorted_scores items)
  /\ (forall x, x ∈ score_items items ->
        filter (fun e => same_key _compare x e) (sorted_scores items)
        = filter (fun e => same_key _compare x e) (score_items items)).
Proof.
  intros Hcons. split.
  - apply (StronglySorted_impl (may_precede _compare)).
    + intros a b. apply compare_may_precede_iff.
    + apply list_sort_sorted; [apply compare_key_lt_asym | done].
  - intros x Hx. unfold sorted_scores.
    apply list_sort_stable; [apply compare_key_lt_asym | done | done].
Qed.

(** [_compare] is not consistent on every input.  The color scores of
    [close_a], [close_b], [close_c] rise in steps of about [0.8e-6]: each
    is within [EPSILON] of the next, yet the first and the last are more
    than [EPSILON] apart, while the percent scores fall.  So [close_a] may
    stand before [close_c], [close_c] before [close_b], and [close_a] not
    before [close_b]. *)
Lemma compare_not_consistent :
  ~ consistent_on _compare (score_items [close_a; close_b; close_c]).
Proof.
  intros H.
  specialize (H (score_item close_a) (score_item close_c) (score_item close_b)).
  rewrite score_items_fmap in H.
  assert (may_precede _compare (score_item close_a) (score_item close_b)) as Hab.
  { apply H.
    - apply list_elem_of_fmap_2. set_solver.
    - apply list_elem_of_fmap_2. set_solver.
    - apply list_elem_of_fmap_2. set_solver.
    - vm_compute. done.
    - vm_compute. done. }
  revert Hab. vm_compute. done.
Qed.

(* ===================================================================== *)
(** ** Further properties: the helpers of [scoring.py] *)
(* ===================================================================== *)

(** X1: with [min_value <= max_value], [_clamp] returns a value inside the
    bounds, returns an in-range value unchanged, is idempotent and is
    monotone in the value; with the bounds the wrong way round it returns
    [min_value] whatever the value. *)
Theorem clamp_bounds (value min_value max_value : Z) :
  (min_value <= max_value ->
     min_value <= _clamp value min_value max_value <= max_value
     /\ (min_value <= value <= max_value ->
         _clamp value min_value max_value = value)
     /\ _clamp (_clamp value min_value max_value) min_value max_value
        = _clamp value min_value max_value
     /\ (forall value', value <= value' ->
           _clamp value min_value max_value
           <= _clamp value' min_value max_value))
  /\ (max_value < min_value -> _clamp value min_value max_value = min_value).
Proof.
  unfold _clamp. split.
  - intros Hb. repeat split; lia.
  - lia.
Qed.

Lemma clamp_bounds_witness :
  (0 <= _clamp 250 0 100 <= 100
   /\ _clamp (_clamp 250 0 100) 0 100 = _clamp 250 0 100
   /\ _clamp 42 0 100 = 42)
  /\ _clamp 42 100 0 = 100.
Proof.
  split.
  - destruct (clamp_bounds 250 0 100) as [H _].
    destruct (H ltac:(lia)) as (Hr & _ & Hi & _).
    destruct (clamp_bounds 42 0 100) as [H' _].
    destruct (H' ltac:(lia)) as (_ & Hid & _).
    split; [exact Hr|]. split; [exact Hi|]. apply Hid. lia.
  - destruct (clamp_bounds 42 100 0) as [_ H]. apply H. lia.
Defined.

(** X2: [_determine_color] only ever answers "GREEN", "YELLOW" or "RED",
    and it is monotone: a percentage at least as high as a "GREEN" one is
    "GREEN", and one at most as high as a "RED" one is "RED". *)
Theorem determine_color_monotone (p q : Z) :
  p <= q ->
  (_determine_color p = "GREEN" \/ _determine_color p = "YELLOW"
   \/ _determine_color p = "RED")
  /\ (_determine_color p = "GREEN" -> _determine_color q = "GREEN")
  /\ (_determine_color q = "RED" -> _determine_color p = "RED")
  /\ (_determine_color p = "YELLOW" -> _determine_color q <> "RED").
Proof.
  intros Hpq.
  destruct (determine_color_iff p) as (Hgp & Hyp & Hrp).
  destruct (determine_color_iff q) as (Hgq & Hyq & Hrq).
  split.
  { destruct (determine_color_cases p) as [[_ E]|[[_ E]|[_ E]]]; auto. }
  split; [|split].
  - intros E. apply Hgq. apply Hgp in E. lia.
  - intros E. apply Hrp. apply Hrq in E. lia.
  - intros E1 E2. apply Hyp in E1. apply Hrq in E2. lia.
Qed.

Lemma determine_color_monotone_witness :
  _determine_color 95 = "GREEN" /\ _determine_color 10 = "RED".
Proof.
  destruct (determine_color_monotone 70 95 ltac:(lia)) as (_ & Hg & _).
  destruct (determine_color_monotone 10 29 ltac:(lia)) as (_ & _ & Hr & _).
  split; [apply Hg | apply Hr]; reflexivity.
Defined.

Lemma average_times_length (values : list Q) :
  values <> [] ->
  (_average values * inject_Z (Z.of_nat (length values)) == Qsum values)%Q.
Proof.
  intros Hne. destruct values as [|q l]; [done|]. unfold _average, float.
  field. intros H.
  assert (0 < inject_Z (Z.of_nat (length (q :: l))))%Q as Hpos.
  { change 0%Q with (inject_Z 0). rewrite <- Zlt_Qlt. simpl length. lia. }
  lra.
Qed.

(** X3: [_average] of an empty collection is 0.0 (no division takes
    place); of a single value it is that value; of a non-empty collection
    it is the sum divided by the number of values, and it lies between any
    lower and upper bound of the values. *)
Theorem average_is_bounded_mean (a b : Q) (values : list Q) :
  values <> [] ->
  Forall (fun q => (a <= q <= b)%Q) values ->
  (a <= _average values <= b)%Q
  /\ (_average values * inject_Z (Z.of_nat (length values)) == Qsum values)%Q
  /\ _average [] = 0%Q
  /\ (forall x : Q, (_average [x] == x)%Q).
Proof.
  intros Hne Hall. split; [by apply average_bounds|].
  split; [by apply average_times_length|]. split; [done|].
  intros x. unfold _average, Qsum, float. simpl. field.
Qed.

Lemma average_is_bounded_mean_witness :
  (70 <= _average [70; 85; 100] <= 100)%Q.
Proof.
  apply (average_is_bounded_mean 70 100 [70; 85; 100]%Q); [done|].
  repeat constructor; done.
Defined.

(* ===================================================================== *)
(** ** Further properties: the block scorer *)
(* ===================================================================== *)

Lemma tier_members_fmap (tier : string) (reqs : list Requirement) :
  (fun rq => _clamp (match_percent rq) 0 100) <$> tier_members tier reqs
  = filter (fun c => _determine_color c = tier) (clamped_percents reqs).
Proof.
  unfold tier_members, clamped_percents.
  induction reqs as [|rq reqs IH]; [done|].
  rewrite fmap_cons.
  destruct (decide (tier_of rq = tier)) as [E|E].
  - rewrite (filter_cons_True _ rq) by done.
    rewrite (filter_cons_True _ (_clamp (match_percent rq) 0 100)) by exact E.
    rewrite fmap_cons. by rewrite IH.
  - rewrite (filter_cons_False _ rq) by done.
    rewrite (filter_cons_False _ (_clamp (match_percent rq) 0 100)) by exact E.
    done.
Qed.

(** The tier counts and the tier percentages are functions of the clamped
    percentages alone. *)
Lemma tier_count_by_percent (tier : string) (reqs : list Requirement) :
  tier_count tier reqs
  = Z.of_nat (length (filter (fun c => _determine_color c = tier)
                        (clamped_percents reqs))).
Proof.
  unfold tier_count. by rewrite <- tier_members_fmap, length_fmap.
Qed.

Lemma tier_percents_by_percent (tier : string) (reqs : list Requirement) :
  tier_percents tier reqs
  = float <$> filter (fun c => _determine_color c = tier) (clamped_percents reqs).
Proof.
  unfold tier_percents. rewrite <- tier_members_fmap, <- list_fmap_compose. done.
Qed.

Lemma tier_percents_length (tier : string) (reqs : list Requirement) :
  Z.of_nat (length (tier_percents tier reqs)) = tier_count tier reqs.
Proof. unfold tier_percents, tier_count. by rewrite length_fmap. Qed.

Lemma tier_percents_nil_iff (tier : string) (reqs : list Requirement) :
  tier_percents tier reqs = [] <-> tier_count tier reqs = 0.
Proof.
  rewrite <- tier_percents_length.
  destruct (tier_percents tier reqs); simpl; split; (done || lia).
Qed.

(** X4: every [RequirementDetail] of a result has its percentage in
    [0,100] and the label that [_determine_color] gives that percentage,
    and the counts [g], [y], [r] are the numbers of details labelled
    "GREEN", "YELLOW" and "RED". *)
Theorem details_are_normalised (reqs : list Requirement) (bt : BlockType) :
  let b := calculate_block_score reqs bt in
  Forall (fun d => 0 <= percent d <= 100
                   /\ color d = _determine_color (percent d)
                   /\ (color d = "GREEN" \/ color d = "YELLOW"
                       \/ color d = "RED"))
    (details b)
  /\ g b = Z.of_nat (length (filter (fun d => color d = "GREEN") (details b)))
  /\ y b = Z.of_nat (length (filter (fun d => color d = "YELLOW") (details b)))
  /\ r b = Z.of_nat (length (filter (fun d => color d = "RED") (details b))).
Proof.
  cbv zeta. rewrite calculate_block_score_details.
  destruct (calculate_block_score_counts reqs bt) as (-> & -> & ->).
  assert (forall tier,
    tier_count tier reqs
    = Z.of_nat (length (filter (fun d => color d = tier) (detail_of <$> reqs))))
    as Hcount.
  { intros tier. unfold tier_count, tier_members.
    induction reqs as [|rq reqs IH]; [done|]. rewrite fmap_cons.
    destruct (decide (tier_of rq = tier)) as [E|E].
    - rewrite !filter_cons_True by done. simpl length. lia.
    - rewrite !filter_cons_False by done. done. }
  split; [|by rewrite <- !Hcount].
  apply Forall_fmap, Forall_forall. intros rq _. simpl.
  split; [apply clamp_range|]. split; [done|].
  apply (tier_of_cases rq).
Qed.

(** The three tier means of a list, each in its range or exactly 0. *)
Lemma tier_averages_range (rs : list Requirement) :
  (if tier_count "GREEN" rs =? 0
   then _average (tier_percents "GREEN" rs) = 0%Q
   else (70 <= _average (tier_percents "GREEN" rs) <= 100)%Q)
  /\ (if tier_count "YELLOW" rs =? 0
      then _average (tier_percents "YELLOW" rs) = 0%Q
      else (30 <= _average (tier_percents "YELLOW" rs) <= 69)%Q)
  /\ (if tier_count "RED" rs =? 0
      then _average (tier_percents "RED" rs) = 0%Q
      else (0 <= _average (tier_percents "RED" rs) <= 29)%Q).
Proof.
  assert (forall tier (lo hi : Z),
    (forall c, 0 <= c <= 100 -> _determine_color c = tier -> lo <= c <= hi) ->
    if tier_count tier rs =? 0 then _average (tier_percents tier rs) = 0%Q
    else (inject_Z lo <= _average (tier_percents tier rs) <= inject_Z hi)%Q)
    as Htier.
  { intros tier lo hi Hrange.
    destruct (Z.eqb_spec (tier_count tier rs) 0) as [E|E].
    - apply tier_percents_nil_iff in E. by rewrite E.
    - apply average_bounds.
      + by rewrite tier_percents_nil_iff.
      + by apply tier_percents_range. }
  split; [|split].
  - apply (Htier "GREEN" 70 100). intros c Hc E.
    apply (determine_color_iff c) in E. lia.
  - apply (Htier "YELLOW" 30 69). intros c Hc E.
    apply (determine_color_iff c) in E. lia.
  - apply (Htier "RED" 0 29). intros c Hc E.
    apply (determine_color_iff c) in E. lia.
Qed.

(** X5: the tier means of a result lie in the tier's range of
    percentages: [g_avg] in [70,100], [y_avg] in [30,69], [r_avg] in
    [0,29]; the mean of a tier without members is exactly 0. *)
Theorem tier_averages_in_range (reqs : list Requirement) (bt : BlockType) :
  let b := calculate_block_score reqs bt in
  (if g b =? 0 then g_avg b = 0%Q else (70 <= g_avg b <= 100)%Q)
  /\ (if y b =? 0 then y_avg b = 0%Q else (30 <= y_avg b <= 69)%Q)
  /\ (if r b =? 0 then r_avg b = 0%Q else (0 <= r_avg b <= 29)%Q).
Proof.
  cbv zeta. destruct reqs as [|rq reqs]; [done|].
  rewrite calculate_block_score_nonempty by done. cbv zeta.
  simpl g; simpl y; simpl r; simpl g_avg; simpl y_avg; simpl r_avg.
  apply tier_averages_range.
Qed.

Lemma Qdiv_eq_one (a b : Q) : (0 < b)%Q -> (a / b == 1)%Q <-> (a == b)%Q.
Proof.
  intros Hb. split; intros H.
  - assert (a == a / b * b)%Q as -> by (field; lra). rewrite H. ring.
  - rewrite H. field. lra.
Qed.

Lemma Qdiv_eq_zero (a b : Q) : (0 < b)%Q -> (a / b == 0)%Q <-> (a == 0)%Q.
Proof.
  intros Hb. split; intros H.
  - assert (a == a / b * b)%Q as -> by (field; lra). rewrite H. ring.
  - rewrite H. field. lra.
Qed.

Lemma Qdiv_pos (a b : Q) : (0 < a)%Q -> (0 < b)%Q -> (0 < a / b)%Q.
Proof. intros Ha Hb. apply Qlt_shift_div_l; [done|]. lra. Qed.

Lemma inject_Z_nonneg (z : Z) : 0 <= z -> (0 <= inject_Z z)%Q.
Proof. intros H. change 0%Q with (inject_Z 0). by rewrite <- Zle_Qle. Qed.

Lemma inject_Z_ge_one (z : Z) : 1 <= z -> (1 <= inject_Z z)%Q.
Proof. intros H. change 1%Q with (inject_Z 1). by rewrite <- Zle_Qle. Qed.

(** Phase 1 is positive as soon as one requirement is High or Partial. *)
Lemma phase1_pos (bt : BlockType) (g y r : Z) :
  0 <= g -> 0 <= y -> 0 <= r -> 0 < g + y -> (0 < phase1 bt g y r)%Q.
Proof.
  intros Hg Hy Hr Hgy. unfold phase1.
  destruct (Z.eqb_spec (g + y) 0) as [E|_]; [lia|].
  pose proof (inject_Z_nonneg g Hg) as HG.
  pose proof (inject_Z_nonneg y Hy) as HY.
  pose proof (inject_Z_nonneg r Hr) as HR.
  pose proof (inject_Z_ge_one (g + y) ltac:(lia)) as HS.
  unfold float, YELLOW_WEIGHT, RED_WEIGHT. rewrite !inject_Z_plus.
  rewrite inject_Z_plus in HS.
  set (G := inject_Z g) in *. set (Y := inject_Z y) in *.
  set (R := inject_Z r) in *.
  destruct bt; apply Qdiv_pos; nra.
Qed.

(** Phase 1 reaches 1 only without Partial and Low requirements. *)
Lemma phase1_one_iff (bt : BlockType) (g y r : Z) :
  0 <= g -> 0 <= y -> 0 <= r ->
  (phase1 bt g y r == 1)%Q <-> (0 < g /\ y = 0 /\ r = 0).
Proof.
  intros Hg Hy Hr. unfold phase1.
  destruct (Z.eqb_spec (g + y) 0) as [E|Hgy].
  { split; [intros H; exfalso; revert H; by compute | lia]. }
  pose proof (inject_Z_nonneg g Hg) as HG.
  pose proof (inject_Z_nonneg y Hy) as HY.
  pose proof (inject_Z_nonneg r Hr) as HR.
  pose proof (inject_Z_ge_one (g + y) ltac:(lia)) as HS.
  unfold float, YELLOW_WEIGHT, RED_WEIGHT. rewrite !inject_Z_plus.
  rewrite inject_Z_plus in HS.
  assert (y = 0 \/ (1 <= inject_Z y)%Q) as Hy01.
  { destruct (Z.eq_dec y 0); [by left|right]. apply inject_Z_ge_one. lia. }
  assert (r = 0 \/ (1 <= inject_Z r)%Q) as Hr01.
  { destruct (Z.eq_dec r 0); [by left|right]. apply inject_Z_ge_one. lia. }
  split.
  - intros H.
    assert (y = 0 /\ r = 0) as [-> ->]; [|lia].
    revert H Hy01 Hr01 HG HY HR HS.
    set (G := inject_Z g). set (Y := inject_Z y). set (R := inject_Z r).
    intros H Hy01 Hr01 HG HY HR HS.
    destruct bt.
    + assert (0 < (G + Y + R) * (G + Y + R))%Q as Hpos by nra.
      apply (proj1 (Qdiv_eq_one _ _ Hpos)) in H.
      destruct Hy01 as [?|HY1]; [|exfalso; nra].
      destruct Hr01 as [?|HR1]; [done|exfalso; nra].
    + assert (0 < G + Y + R)%Q as Hpos by lra.
      apply (proj1 (Qdiv_eq_one _ _ Hpos)) in H.
      destruct Hy01 as [?|HY1]; [|exfalso; lra].
      destruct Hr01 as [?|HR1]; [done|exfalso; lra].
    + assert (0 < G + Y + R)%Q as Hpos by lra.
      apply (proj1 (Qdiv_eq_one _ _ Hpos)) in H.
      destruct Hy01 as [?|HY1]; [|exfalso; lra].
      destruct Hr01 as [?|HR1]; [done|exfalso; lra].
  - intros (Hg0 & -> & ->).
    pose proof (inject_Z_ge_one g ltac:(lia)) as HG1.
    change (inject_Z 0) with 0%Q.
    destruct bt; apply Qdiv_eq_one; nra.
Qed.

(** X6: a block scores zero exactly when it has no High and no Partial
    requirement: [color_score] is 0 if and only if [g + y = 0], and
    [percent_score] is 0 if and only if [color_score] is; otherwise both
    are positive. *)
Theorem scores_zero_iff (reqs : list Requirement) (bt : BlockType) :
  let b := calculate_block_score reqs bt in
  ((color_score b == 0)%Q <-> g b + y b = 0)
  /\ ((percent_score b == 0)%Q <-> g b + y b = 0)
  /\ (0 <= color_score b)%Q /\ (0 <= percent_score b)%Q.
Proof.
  cbv zeta. destruct reqs as [|rq reqs]; [done|].
  rewrite calculate_block_score_nonempty by done. cbv zeta.
  simpl color_score; simpl percent_score; simpl g; simpl y.
  set (rs := rq :: reqs).
  pose proof (tier_count_nonneg "GREEN" rs) as Hg.
  pose proof (tier_count_nonneg "YELLOW" rs) as Hy.
  pose proof (tier_count_nonneg "RED" rs) as Hr.
  pose proof (phase1_range bt _ _ _ Hg Hy Hr) as [Hcs0 _].
  pose proof (tier_averages_range rs) as (Hga & Hya & Hra).
  destruct (Z.eq_dec (tier_count "GREEN" rs + tier_count "YELLOW" rs) 0)
    as [E|E].
  - assert (phase1 bt (tier_count "GREEN" rs) (tier_count "YELLOW" rs)
              (tier_count "RED" rs) = 0%Q) as ->.
    { unfold phase1. by rewrite E. }
    unfold phase2. repeat split; try done; intros; try done; try ring; lra.
  - pose proof (phase1_pos bt _ _ _ Hg Hy Hr ltac:(lia)) as Hpos.
    set (cs := phase1 bt _ _ _) in *.
    assert (0 < phase2 (_average (tier_percents "GREEN" rs))
                  (_average (tier_percents "YELLOW" rs))
                  (_average (tier_percents "RED" rs)) cs)%Q as Hps.
    { unfold phase2, YELLOW_WEIGHT, RED_WEIGHT, Qdiv.
      change (/ 100.0)%Q with (10 # 1000)%Q.
      apply Qmult_lt_0_compat; [|done].
      revert Hga Hya Hra.
      destruct (Z.eqb_spec (tier_count "GREEN" rs) 0) as [Eg|Eg],
        (Z.eqb_spec (tier_count "YELLOW" rs) 0) as [Ey|Ey],
        (Z.eqb_spec (tier_count "RED" rs) 0) as [Er|Er];
        intros Hga Hya Hra; try lia;
        rewrite ?Hga, ?Hya, ?Hra; lra. }
    split; [|split; [|split]]; [| |lra|lra].
    + split; [intros H; lra | done].
    + split; [intros H; lra | done].
Qed.

(** X7: [color_score] reaches its maximum 1 exactly for a non-empty block
    whose requirements are all High ([g = n > 0]); one Partial or Low
    requirement keeps it below 1, for every block kind. *)
Theorem color_score_one_iff (reqs : list Requirement) (bt : BlockType) :
  let b := calculate_block_score reqs bt in
  (color_score b == 1)%Q <-> (0 < n b /\ g b = n b).
Proof.
  cbv zeta. unfold n. destruct reqs as [|rq reqs].
  { simpl. split; [intros H; exfalso; revert H; by compute | lia]. }
  rewrite calculate_block_score_nonempty by done. cbv zeta.
  simpl color_score; simpl g; simpl y; simpl r.
  set (rs := rq :: reqs).
  pose proof (tier_count_nonneg "GREEN" rs) as Hg.
  pose proof (tier_count_nonneg "YELLOW" rs) as Hy.
  pose proof (tier_count_nonneg "RED" rs) as Hr.
  rewrite (phase1_one_iff bt _ _ _ Hg Hy Hr). lia.
Qed.

(** [coverage] of any block with non-negative counts lies in [0,1]. *)
Lemma coverage_range (b : BlockScore) :
  0 <= g b -> 0 <= y b -> 0 <= r b -> (0 <= coverage b <= 1)%Q.
Proof.
  intros Hg Hy Hr. unfold coverage, n.
  destruct (Z.eqb_spec (g b + y b + r b) 0) as [E|E]; [lra|].
  pose proof (inject_Z_nonneg _ Hg) as HG.
  pose proof (inject_Z_nonneg _ Hy) as HY.
  pose proof (inject_Z_nonneg _ Hr) as HR.
  pose proof (inject_Z_ge_one (g b + y b + r b) ltac:(lia)) as HN.
  rewrite !inject_Z_plus in *.
  split.
  - apply Qle_shift_div_l; lra.
  - apply Qle_shift_div_r; lra.
Qed.

(** X10: for every scored block, [coverage] lies in [0,1]; it is 0
    exactly when the block has no High or Partial requirement (which
    includes the empty block, where no division takes place) and 1 exactly
    when the block is non-empty without a Low requirement; and the color
    score of a Mandatory block never exceeds its coverage. *)
Theorem coverage_of_scored_block (reqs : list Requirement) (bt : BlockType) :
  let b := calculate_block_score reqs bt in
  (0 <= coverage b <= 1)%Q
  /\ ((coverage b == 0)%Q <-> g b + y b = 0)
  /\ ((coverage b == 1)%Q <-> (0 < n b /\ r b = 0))
  /\ (color_score (calculate_block_score reqs MANDATORY)
      <= coverage (calculate_block_score reqs MANDATORY))%Q.
Proof.
  cbv zeta.
  assert (forall bt', 0 <= g (calculate_block_score reqs bt')
                      /\ 0 <= y (calculate_block_score reqs bt')
                      /\ 0 <= r (calculate_block_score reqs bt')) as Hnn.
  { intros bt'. destruct (calculate_block_score_counts reqs bt') as (-> & -> & ->).
    repeat split; apply tier_count_nonneg. }
  destruct (Hnn bt) as (Hg & Hy & Hr).
  split; [by apply coverage_range|].
  set (b := calculate_block_score reqs bt) in *.
  split; [|split].
  - unfold coverage, n.
    destruct (Z.eqb_spec (g b + y b + r b) 0) as [E|E].
    + split; [lia|done].
    + assert (1 <= inject_Z (g b + y b + r b))%Q as HN
        by (apply inject_Z_ge_one; lia).
      rewrite Qdiv_eq_zero by lra. change 0%Q with (inject_Z 0).
      rewrite inject_Z_injective. done.
  - unfold coverage, n.
    destruct (Z.eqb_spec (g b + y b + r b) 0) as [E|E].
    + split; [intros H; exfalso; revert H; by compute | lia].
    + assert (1 <= inject_Z (g b + y b + r b))%Q as HN
        by (apply inject_Z_ge_one; lia).
      rewrite Qdiv_eq_one by lra. rewrite inject_Z_injective. lia.
  - destruct reqs as [|rq reqs]; [done|].
    unfold coverage, n.
    rewrite calculate_block_score_nonempty by done. cbv zeta.
    simpl color_score; simpl g; simpl y; simpl r.
    set (rs := rq :: reqs).
    pose proof (tier_count_nonneg "GREEN" rs) as Hg'.
    pose proof (tier_count_nonneg "YELLOW" rs) as Hy'.
    pose proof (tier_count_nonneg "RED" rs) as Hr'.
    pose proof (tier_count_pos_of_nonempty rs ltac:(done)) as Hn.
    destruct (Z.eqb_spec (tier_count "GREEN" rs + tier_count "YELLOW" rs
                          + tier_count "RED" rs) 0) as [E|_]; [lia|].
    unfold phase1.
    destruct (Z.eqb_spec (tier_count "GREEN" rs + tier_count "YELLOW" rs) 0)
      as [E|E].
    { rewrite E. apply Qle_shift_div_l.
      - apply (Qlt_le_trans _ 1); [done|]. apply inject_Z_ge_one. lia.
      - rewrite Qmult_0_l. done. }
    pose proof (inject_Z_nonneg _ Hg') as HG.
    pose proof (inject_Z_nonneg _ Hy') as HY.
    pose proof (inject_Z_nonneg _ Hr') as HR.
    pose proof (inject_Z_ge_one (tier_count "GREEN" rs + tier_count "YELLOW" rs)
                  ltac:(lia)) as HS.
    unfold float, YELLOW_WEIGHT, RED_WEIGHT. rewrite !inject_Z_plus.
    rewrite inject_Z_plus in HS.
    set (G := inject_Z (tier_count "GREEN" rs)) in *.
    set (Y := inject_Z (tier_count "YELLOW" rs)) in *.
    set (R := inject_Z (tier_count "RED" rs)) in *.
    assert (0 < G + Y + R)%Q as HN by lra.
    assert (0 < (G + Y + R) * (G + Y + R))%Q as HN2 by nra.
    apply Qle_shift_div_r; [done|].
    assert ((G + Y) / (G + Y + R) * ((G + Y + R) * (G + Y + R))
            == (G + Y) * (G + Y + R))%Q as -> by (field; lra).
    nra.
Qed.

(* ===================================================================== *)
(** ** Further properties: how a block score depends on its input *)
(* ===================================================================== *)

Lemma tier_of_monotone (rq1 rq2 : Requirement) :
  match_percent rq1 <= match_percent rq2 ->
  (tier_of rq1 = "GREEN" -> tier_of rq2 = "GREEN")
  /\ (tier_of rq2 = "RED" -> tier_of rq1 = "RED").
Proof.
  intros Hle. unfold tier_of.
  assert (_clamp (match_percent rq1) 0 100 <= _clamp (match_percent rq2) 0 100)
    as Hc by (unfold _clamp; lia).
  destruct (determine_color_iff (_clamp (match_percent rq1) 0 100))
    as (Hg1 & _ & Hr1).
  destruct (determine_color_iff (_clamp (match_percent rq2) 0 100))
    as (Hg2 & _ & Hr2).
  split; intros E.
  - apply Hg2. apply Hg1 in E. lia.
  - apply Hr1. apply Hr2 in E. lia.
Qed.

(** Raising percentages position by position can only move requirements
    into "GREEN" and out of "RED". *)
Lemma percents_raised_counts (reqs1 reqs2 : list Requirement) :
  percents_raised reqs1 reqs2 ->
  length reqs1 = length reqs2
  /\ tier_count "GREEN" reqs1 <= tier_count "GREEN" reqs2
  /\ tier_count "RED" reqs2 <= tier_count "RED" reqs1.
Proof.
  induction 1 as [|rq1 rq2 reqs1 reqs2 Hle _ (IHl & IHg & IHr)]; [done|].
  destruct (tier_of_monotone rq1 rq2 Hle) as [Hg Hr].
  split; [simpl; lia|]. split.
  - destruct (decide (tier_of rq1 = "GREEN")) as [E1|E1].
    + rewrite !tier_count_cons_eq by auto. lia.
    + rewrite (tier_count_cons_ne _ rq1) by done.
      destruct (decide (tier_of rq2 = "GREEN")) as [E2|E2].
      * rewrite tier_count_cons_eq by done. lia.
      * rewrite tier_count_cons_ne by done. lia.
  - destruct (decide (tier_of rq2 = "RED")) as [E2|E2].
    + rewrite !tier_count_cons_eq by auto. lia.
    + rewrite (tier_count_cons_ne _ rq2) by done.
      destruct (decide (tier_of rq1 = "RED")) as [E1|E1].
      * rewrite tier_count_cons_eq by done. lia.
      * rewrite tier_count_cons_ne by done. lia.
Qed.

Lemma Qdiv_le_compat_r (a b c : Q) : (0 < c)%Q -> (a <= b)%Q -> (a / c <= b / c)%Q.
Proof.
  intros Hc Hab. unfold Qdiv. apply Qmult_le_compat_r; [done|].
  apply Qlt_le_weak, Qinv_lt_0_compat, Hc.
Qed.

(** Phase 1 is monotone: with the block size fixed, more High and fewer
    Low requirements never lower it. *)
Lemma phase1_monotone (bt : BlockType) (g1 y1 r1 g2 y2 r2 : Z) :
  0 <= g1 -> 0 <= y1 -> 0 <= r1 -> 0 <= g2 -> 0 <= y2 -> 0 <= r2 ->
  g1 + y1 + r1 = g2 + y2 + r2 -> g1 <= g2 -> r2 <= r1 ->
  (phase1 bt g1 y1 r1 <= phase1 bt g2 y2 r2)%Q.
Proof.
  intros Hg1 Hy1 Hr1 Hg2 Hy2 Hr2 Hn Hg Hr.
  destruct (Z.eq_dec (g1 + y1) 0) as [E|E].
  { apply (Qle_trans _ 0); [|by apply phase1_range].
    unfold phase1. rewrite E. done. }
  unfold phase1. rewrite <- Hn.
  destruct (Z.eqb_spec (g1 + y1) 0) as [?|_]; [lia|].
  destruct (Z.eqb_spec (g2 + y2) 0) as [?|_]; [lia|].
  pose proof (inject_Z_nonneg _ Hg1) as HG1.
  pose proof (inject_Z_nonneg _ Hy1) as HY1.
  pose proof (inject_Z_nonneg _ Hr1) as HR1.
  pose proof (inject_Z_nonneg _ Hg2) as HG2.
  pose proof (inject_Z_nonneg _ Hy2) as HY2.
  pose proof (inject_Z_nonneg _ Hr2) as HR2.
  pose proof (inject_Z_ge_one (g1 + y1) ltac:(lia)) as HS1.
  assert (inject_Z g1 + inject_Z y1 + inject_Z r1
          == inject_Z g2 + inject_Z y2 + inject_Z r2)%Q as HN.
  { rewrite <- !inject_Z_plus. by rewrite Hn. }
  rewrite Zle_Qle in Hg, Hr.
  unfold float, YELLOW_WEIGHT, RED_WEIGHT. rewrite !inject_Z_plus.
  rewrite inject_Z_plus in HS1.
  set (G1 := inject_Z g1) in *. set (Y1 := inject_Z y1) in *.
  set (R1 := inject_Z r1) in *. set (G2 := inject_Z g2) in *.
  set (Y2 := inject_Z y2) in *. set (R2 := inject_Z r2) in *.
  assert (G1 + Y1 <= G2 + Y2)%Q as HS by lra.
  destruct bt.
  - apply Qdiv_le_compat_r; [nra|].
    assert (G1 * (G1 + Y1) <= G2 * (G2 + Y2))%Q as Hp1 by nra.
    assert ((G1 + Y1) * (G1 + Y1) - 0.02 * (G1 + Y1)
            <= (G2 + Y2) * (G2 + Y2) - 0.02 * (G2 + Y2))%Q as Hp2 by nra.
    assert (R1 == G2 + Y2 + R2 - G1 - Y1)%Q as HR1e by lra.
    nra.
  - apply Qdiv_le_compat_r; lra.
  - apply Qdiv_le_compat_r; lra.
Qed.

(** X8: raising the percentages of a requirement list, position by
    position, never lowers the block's [color_score] nor its [coverage],
    for every block kind. *)
Theorem color_score_monotone (reqs1 reqs2 : list Requirement) (bt : BlockType) :
  percents_raised reqs1 reqs2 ->
  (color_score (calculate_block_score reqs1 bt)
   <= color_score (calculate_block_score reqs2 bt))%Q
  /\ (coverage (calculate_block_score reqs1 bt)
      <= coverage (calculate_block_score reqs2 bt))%Q.
Proof.
  intros Hraised.
  destruct (percents_raised_counts _ _ Hraised) as (Hlen & Hg & Hr).
  pose proof (tier_count_total reqs1) as Ht1.
  pose proof (tier_count_total reqs2) as Ht2.
  pose proof (tier_count_nonneg "GREEN" reqs1) as Hg1.
  pose proof (tier_count_nonneg "YELLOW" reqs1) as Hy1.
  pose proof (tier_count_nonneg "RED" reqs1) as Hr1.
  pose proof (tier_count_nonneg "GREEN" reqs2) as Hg2.
  pose proof (tier_count_nonneg "YELLOW" reqs2) as Hy2.
  pose proof (tier_count_nonneg "RED" reqs2) as Hr2.
  assert (reqs1 = [] /\ reqs2 = [] \/ reqs1 <> [] /\ reqs2 <> [])
    as [[-> ->]|[Hne1 Hne2]].
  { destruct reqs1, reqs2; simpl in Hlen; try discriminate Hlen;
      [by left | by right]. }
  { rewrite !calculate_block_score_empty. unfold coverage, n. simpl. lra. }
  split.
  - rewrite !calculate_block_score_nonempty by done. cbv zeta.
    simpl color_score. apply phase1_monotone; try assumption. lia.
  - unfold coverage, n.
    destruct (calculate_block_score_counts reqs1 bt) as (-> & -> & ->).
    destruct (calculate_block_score_counts reqs2 bt) as (-> & -> & ->).
    rewrite Ht1, Ht2, <- Hlen.
    destruct (Z.eqb_spec (Z.of_nat (length reqs1)) 0) as [E|E]; [lra|].
    apply Qdiv_le_compat_r.
    + change 0%Q with (inject_Z 0). rewrite <- Zlt_Qlt. lia.
    + rewrite <- Zle_Qle. lia.
Qed.

Lemma color_score_monotone_witness :
  (color_score (calculate_block_score [req 20; req 50] MANDATORY)
   <= color_score (calculate_block_score [req 40; req 90] MANDATORY))%Q.
Proof.
  apply (color_score_monotone [req 20; req 50] [req 40; req 90] MANDATORY).
  repeat constructor; simpl; lia.
Defined.

Lemma foldl_Qplus_acc (l : list Q) (acc : Q) :
  (foldl Qplus acc l == acc + Qsum l)%Q.
Proof.
  unfold Qsum. revert acc. induction l as [|x l IH]; intros acc; simpl.
  - ring.
  - rewrite (IH (acc + x)%Q), (IH (0 + x)%Q). ring.
Qed.

Lemma Qsum_cons (x : Q) (l : list Q) : (Qsum (x :: l) == x + Qsum l)%Q.
Proof. unfold Qsum at 1. simpl. rewrite foldl_Qplus_acc. ring. Qed.

(** The sum of floats does not depend on their order (rounding apart). *)
Lemma Qsum_perm (l l' : list Q) : l ≡ₚ l' -> (Qsum l == Qsum l')%Q.
Proof.
  induction 1 as [|x l l' _ IH|x x' l|l l' l'' _ IH1 _ IH2].
  - reflexivity.
  - by rewrite !Qsum_cons, IH.
  - rewrite !Qsum_cons. ring.
  - by rewrite IH1.
Qed.

Lemma average_perm (l l' : list Q) : l ≡ₚ l' -> (_average l == _average l')%Q.
Proof.
  intros Hp. destruct l as [|x l], l' as [|x' l'].
  - reflexivity.
  - by apply Permutation_nil_cons in Hp.
  - symmetry in Hp. by apply Permutation_nil_cons in Hp.
  - unfold _average. rewrite (Qsum_perm _ _ Hp).
    by rewrite (Permutation_length Hp).
Qed.

Lemma phase2_wd (ga ga' ya ya' ra ra' cs cs' : Q) :
  (ga == ga')%Q -> (ya == ya')%Q -> (ra == ra')%Q -> (cs == cs')%Q ->
  (phase2 ga ya ra cs == phase2 ga' ya' ra' cs')%Q.
Proof.
  intros Hg Hy Hr Hc. unfold phase2. by rewrite Hg, Hy, Hr, Hc.
Qed.

(** X9: the scores of a block depend only on the multiset of its clamped
    percentages.  Two requirement lists whose clamped percentages are
    permutations of each other (whatever their names, evidence, comments
    and order) get the same counts and the same [color_score], and equal
    tier means and [percent_score]. *)
Theorem block_score_depends_on_percent_multiset
    (reqs1 reqs2 : list Requirement) (bt : BlockType) :
  clamped_percents reqs1 ≡ₚ clamped_percents reqs2 ->
  let b1 := calculate_block_score reqs1 bt in
  let b2 := calculate_block_score reqs2 bt in
  g b1 = g b2 /\ y b1 = y b2 /\ r b1 = r b2
  /\ color_score b1 = color_score b2
  /\ (g_avg b1 == g_avg b2)%Q /\ (y_avg b1 == y_avg b2)%Q
  /\ (r_avg b1 == r_avg b2)%Q
  /\ (percent_score b1 == percent_score b2)%Q.
Proof.
  intros Hp. cbv zeta.
  assert (forall tier, tier_count tier reqs1 = tier_count tier reqs2) as Hcount.
  { intros tier. rewrite !tier_count_by_percent. by rewrite Hp. }
  assert (forall tier,
    (_average (tier_percents tier reqs1) == _average (tier_percents tier reqs2))%Q)
    as Havg.
  { intros tier. apply average_perm. rewrite !tier_percents_by_percent.
    by rewrite Hp. }
  destruct reqs1 as [|rq1 reqs1], reqs2 as [|rq2 reqs2].
  - repeat split; reflexivity.
  - by apply Permutation_nil_cons in Hp.
  - symmetry in Hp. by apply Permutation_nil_cons in Hp.
  - rewrite !calculate_block_score_nonempty by done. cbv zeta.
    simpl g; simpl y; simpl r; simpl color_score; simpl g_avg; simpl y_avg;
      simpl r_avg; simpl percent_score.
    rewrite !Hcount.
    repeat split; try done; try apply Havg.
    apply phase2_wd; try apply Havg. reflexivity.
Qed.

Lemma block_score_depends_on_percent_multiset_witness :
  color_score (calculate_block_score [req 90; req 10; req 150] PREFERRED)
  = color_score
      (calculate_block_score
         [mkRequirement "a" 100 "seen" ""; mkRequirement "b" 90 "" "";
          mkRequirement "c" 10 "" "gap"] PREFERRED).
Proof.
  apply (block_score_depends_on_percent_multiset
           [req 90; req 10; req 150]
           [mkRequirement "a" 100 "seen" ""; mkRequirement "b" 90 "" "";
            mkRequirement "c" 10 "" "gap"] PREFERRED).
  unfold clamped_percents. simpl.
  change (_clamp 90 0 100) with 90. change (_clamp 10 0 100) with 10.
  change (_clamp 150 0 100) with 100. change (_clamp 100 0 100) with 100.
  etrans; [apply Permutation_skip, Permutation_swap | apply Permutation_swap].
Defined.

(* ===================================================================== *)
(** ** Further properties: weights and final scores *)
(* ===================================================================== *)

(** The three effective weights, by emptiness flags, up to [==]. *)
Lemma redistribute_weights_values (m p t : list Requirement) :
  let w := redistribute_weights m p t in
  (w !!! MANDATORY
   == (if is_empty m then 0 else 1) + (if is_empty p && is_empty t then 0.4 else 0))%Q
  /\ (w !!! PREFERRED
      == if is_empty p then 0 else if is_empty t then 0.4 else 0.2)%Q
  /\ (w !!! TASKS
      == if is_empty t then 0 else if is_empty p then 0.4 else 0.2)%Q.
Proof.
  cbv zeta. destruct (redistribute_weights_lookup m p t) as (HM & HP & HT).
  rewrite !lookup_total_alt, HM, HP, HT. simpl default.
  unfold MANDATORY_WEIGHT, PREFERRED_WEIGHT, TASKS_WEIGHT.
  destruct (is_empty m), (is_empty p), (is_empty t); simpl andb; cbv iota;
    repeat split; done.
Qed.

Lemma redistribute_weights_nonneg (m p t : list Requirement) (k : BlockType) :
  (0 <= redistribute_weights m p t !!! k)%Q.
Proof.
  destruct (redistribute_weights_values m p t) as (HM & HP & HT).
  destruct k; [rewrite HM|rewrite HP|rewrite HT];
    destruct (is_empty m), (is_empty p), (is_empty t); simpl andb; cbv iota;
    lra.
Qed.

(** X12: no effective weight is negative.  The weight of Preferred (of
    Tasks) is 0 exactly when that block is empty, and is otherwise at least
    its default 0.2.  The weight of Mandatory is 0 exactly when Mandatory is
    empty while Preferred or Tasks is not; when all three blocks are empty
    Mandatory still carries the weight 0.4 of the two optional blocks. *)
Theorem redistributed_weight_zero_iff (m p t : list Requirement) :
  let w := redistribute_weights m p t in
  (forall k, (0 <= w !!! k)%Q)
  /\ ((w !!! PREFERRED == 0)%Q <-> is_empty p = true)
  /\ ((w !!! TASKS == 0)%Q <-> is_empty t = true)
  /\ ((w !!! MANDATORY == 0)%Q
      <-> (is_empty m = true /\ is_empty p && is_empty t = false))
  /\ (if is_empty p then True else (0.2 <= w !!! PREFERRED)%Q)
  /\ (if is_empty t then True else (0.2 <= w !!! TASKS)%Q)
  /\ (if is_empty m && is_empty p && is_empty t
      then (w !!! MANDATORY == 0.4)%Q else True).
Proof.
  cbv zeta. split; [intros k; apply redistribute_weights_nonneg|].
  destruct (redistribute_weights_values m p t) as (HM & HP & HT).
  revert HM HP HT.
  set (wM := redistribute_weights m p t !!! MANDATORY).
  set (wP := redistribute_weights m p t !!! PREFERRED).
  set (wT := redistribute_weights m p t !!! TASKS).
  destruct (is_empty m), (is_empty p), (is_empty t); simpl andb; cbv iota;
    intros HM HP HT; repeat split; intros; try lra; try discriminate;
    exfalso; lra.
Qed.

(** The final scores of one item, within their bounds. *)
Lemma score_item_bounds (it : ItemInput) :
  let s := score_item it in
  (0 <= final_color_score s <= total_weight (used_weights s))%Q
  /\ (total_weight (used_weights s) <= weight_budget)%Q
  /\ (0 <= final_percent_score s <= 1.3479 * final_color_score s)%Q.
Proof.
  cbv zeta. unfold score_item, total_weight.
  simpl final_color_score; simpl final_percent_score; simpl used_weights.
  pose proof (redistribute_weights_total (in_mandatory it) (in_preferred it)
                (in_tasks it)) as Htot.
  unfold total_weight in Htot.
  pose proof (redistribute_weights_nonneg (in_mandatory it) (in_preferred it)
                (in_tasks it) MANDATORY) as HwM.
  pose proof (redistribute_weights_nonneg (in_mandatory it) (in_preferred it)
                (in_tasks it) PREFERRED) as HwP.
  pose proof (redistribute_weights_nonneg (in_mandatory it) (in_preferred it)
                (in_tasks it) TASKS) as HwT.
  set (w := redistribute_weights _ _ _) in *.
  destruct (block_scores_range (in_mandatory it) MANDATORY) as (HcM & HpM).
  destruct (block_scores_range (in_preferred it) PREFERRED) as (HcP & HpP).
  destruct (block_scores_range (in_tasks it) TASKS) as (HcT & HpT).
  set (cM := color_score (calculate_block_score (in_mandatory it) MANDATORY)) in *.
  set (cP := color_score (calculate_block_score (in_preferred it) PREFERRED)) in *.
  set (cT := color_score (calculate_block_score (in_tasks it) TASKS)) in *.
  set (pM := percent_score (calculate_block_score (in_mandatory it) MANDATORY)) in *.
  set (pP := percent_score (calculate_block_score (in_preferred it) PREFERRED)) in *.
  set (pT := percent_score (calculate_block_score (in_tasks it) TASKS)) in *.
  set (wM := w !!! MANDATORY) in *. set (wP := w !!! PREFERRED) in *.
  set (wT := w !!! TASKS) in *.
  split; [nra|]. split.
  { rewrite Htot. unfold weight_budget, MANDATORY_WEIGHT, PREFERRED_WEIGHT,
      TASKS_WEIGHT. destruct (is_empty (in_mandatory it)); lra. }
  nra.
Qed.

(** X13: every score that [rank_items] returns has
    [0 <= final_color_score <= 1.4] (it is at most the sum of the item's
    effective weights) and
    [0 <= final_percent_score <= 1.3479 * final_color_score]. *)
Theorem final_scores_bounded (items : list ItemInput) :
  Forall (fun s =>
            (0 <= final_color_score s <= total_weight (used_weights s))%Q
            /\ (total_weight (used_weights s) <= 1.4)%Q
            /\ (0 <= final_percent_score s <= 1.3479 * final_color_score s)%Q)
    (rank_items items).
Proof.
  apply Forall_forall. intros s Hs.
  apply rank_items_elem in Hs as (it & idx & _ & ->).
  destruct (score_item_bounds it) as (Hc & Hw & Hp).
  split; [exact Hc|]. split; [|exact Hp].
  apply (Qle_trans _ weight_budget); [exact Hw|]. done.
Qed.

Lemma is_empty_true {A : Type} (l : list A) : is_empty l = true <-> l = [].
Proof. destruct l; simpl; split; done. Qed.

(** X14: an item whose Preferred and Tasks blocks are both empty is scored
    by its Mandatory block alone, with the whole budget as weight:
    [final_color_score = 1.4 * color_score] and
    [final_percent_score = 1.4 * percent_score] of the Mandatory block when
    that block is non-empty, and both final scores are 0 when it is empty
    too. *)
Theorem mandatory_only_item (it : ItemInput) :
  in_preferred it = [] -> in_tasks it = [] ->
  let s := score_item it in
  let w := if is_empty (in_mandatory it) then 0.4%Q else 1.4%Q in
  (final_color_score s == w * color_score (mandatory s))%Q
  /\ (final_percent_score s == w * percent_score (mandatory s))%Q
  /\ (if is_empty (in_mandatory it)
      then (final_color_score s == 0)%Q /\ (final_percent_score s == 0)%Q
      else True).
Proof.
  intros Hp Ht. cbv zeta. unfold score_item.
  cbn [final_color_score final_percent_score mandatory].
  rewrite Hp, Ht.
  destruct (redistribute_weights_values (in_mandatory it) [] []) as (HM & HP & HT).
  revert HM HP HT.
  set (wM := redistribute_weights (in_mandatory it) [] [] !!! MANDATORY).
  set (wP := redistribute_weights (in_mandatory it) [] [] !!! PREFERRED).
  set (wT := redistribute_weights (in_mandatory it) [] [] !!! TASKS).
  rewrite !calculate_block_score_empty.
  cbn [color_score percent_score zero_block_score is_empty andb].
  destruct (in_mandatory it) as [|rq reqs].
  - rewrite calculate_block_score_empty.
    cbn [color_score percent_score zero_block_score is_empty].
    intros HM HP HT. rewrite HM. repeat split; ring.
  - cbn [is_empty]. intros HM HP HT.
    set (cM := color_score _). set (pM := percent_score _).
    rewrite HM. repeat split; ring.
Qed.

(** The end-to-end example: two Mandatory requirements at 100 and 80 and
    nothing else give [final_color_score = 1.4 * 1.0]. *)
Lemma mandatory_only_item_witness :
  (final_color_score (score_item sample_only)
   == 1.4 * color_score (mandatory (score_item sample_only)))%Q.
Proof.
  destruct (mandatory_only_item sample_only eq_refl eq_refl) as (H & _).
  exact H.
Defined.

(* ===================================================================== *)
(** ** Further properties: the comparison function *)
(* ===================================================================== *)

Lemma compare_range (a b : ItemScore) : -1 <= _compare a b <= 1.
Proof.
  unfold _compare.
  repeat match goal with |- context [if ?c then _ else _] => destruct c end; lia.
Qed.

(** X15: [_compare] keeps the contract of a comparison function as far as
    a pair goes: it answers -1, 0 or 1, exchanging the arguments negates
    the answer, and a score compares equal to itself. *)
Theorem compare_contract (a b : ItemScore) :
  -1 <= _compare a b <= 1
  /\ _compare b a = - _compare a b
  /\ _compare a a = 0.
Proof.
  split; [apply compare_range|]. split; [apply compare_antisym|].
  pose proof (compare_antisym a a). lia.
Qed.

Lemma compare_zero_iff (a b : ItemScore) :
  _compare a b = 0
  <-> (Qabs (final_color_score b - final_color_score a) <= EPSILON)%Q
      /\ (final_percent_score a == final_percent_score b)%Q.
Proof.
  pose proof (compare_negative_iff a b) as Hab.
  pose proof (compare_negative_iff b a) as Hba.
  pose proof (compare_antisym a b) as Hanti.
  pose proof (Qabs_Qle_condition
                (final_color_score b - final_color_score a) EPSILON) as Habs1.
  pose proof (Qabs_Qle_condition
                (final_color_score a - final_color_score b) EPSILON) as Habs2.
  set (ca := final_color_score a) in *. set (cb := final_color_score b) in *.
  set (pa := final_percent_score a) in *. set (pb := final_percent_score b) in *.
  split.
  - intros H0.
    assert (~ _compare a b < 0) as Hn1 by lia.
    assert (~ _compare b a < 0) as Hn2 by lia.
    rewrite Hab in Hn1. rewrite Hba in Hn2.
    assert (Qabs (cb - ca) <= EPSILON)%Q as Hle.
    { apply Habs1. split.
      - apply Qnot_lt_le. intros H. apply Hn2. left. lra.
      - apply Qnot_lt_le. intros H. apply Hn1. left. lra. }
    split; [done|].
    apply Qle_antisym; apply Qnot_lt_le; intros H.
    + apply Hn2. right. split; [|done]. apply Habs2.
      apply Habs1 in Hle. lra.
    + apply Hn1. right. by split.
  - intros [Hle Hp].
    assert (~ _compare a b < 0) as Hn1.
    { rewrite Hab. intros [H|[_ H]]; [|lra]. apply Habs1 in Hle. lra. }
    assert (~ _compare b a < 0) as Hn2.
    { rewrite Hba. intros [H|[_ H]]; [|lra]. apply Habs1 in Hle. lra. }
    lia.
Qed.

(** X16: what [_compare] decides.  [_compare a b] is negative ([a] sorts
    first) exactly when [b]'s color score is more than [EPSILON] above
    [a]'s, or the two color scores are within [EPSILON] and [b]'s percent
    score is strictly greater; it is 0 exactly when the color scores are
    within [EPSILON] and the percent scores are equal.  The tolerance
    applies to the color score only. *)
Theorem compare_decides (a b : ItemScore) :
  (_compare a b < 0
   <-> (EPSILON < final_color_score b - final_color_score a)%Q
       \/ ((Qabs (final_color_score b - final_color_score a) <= EPSILON)%Q
           /\ (final_percent_score a < final_percent_score b)%Q))
  /\ (_compare a b = 0
      <-> (Qabs (final_color_score b - final_color_score a) <= EPSILON)%Q
          /\ (final_percent_score a == final_percent_score b)%Q).
Proof. split; [apply compare_negative_iff | apply compare_zero_iff]. Qed.

(** On well separated scores "may stand before" is the lexicographic
    order of the two keys, hence transitive. *)
Lemma well_separated_consistent (l : list ItemScore) :
  well_separated l -> consistent_on _compare l.
Proof.
  intros Hsep a b c Ha Hb Hc Hab Hbc.
  apply compare_may_precede_iff in Hab as [Hab1 Hab2].
  apply compare_may_precede_iff in Hbc as [Hbc1 Hbc2].
  apply compare_may_precede_iff.
  pose proof (Hsep a b Ha Hb) as Sab. pose proof (Hsep b c Hb Hc) as Sbc.
  pose proof (Hsep a c Ha Hc) as Sac.
  pose proof (Qabs_Qle_condition
                (final_color_score a - final_color_score b) EPSILON) as Aab.
  pose proof (Qabs_Qle_condition
                (final_color_score b - final_color_score c) EPSILON) as Abc.
  pose proof (Qabs_Qle_condition
                (final_color_score a - final_color_score c) EPSILON) as Aac.
  assert (0 < EPSILON)%Q as He by done.
  set (ca := final_color_score a) in *. set (cb := final_color_score b) in *.
  set (cc := final_color_score c) in *.
  set (pa := final_percent_score a) in *. set (pb := final_percent_score b) in *.
  set (pc := final_percent_score c) in *.
  (* each pair is either equal in color or more than EPSILON apart *)
  assert ((ca == cb)%Q \/ (ca < cb - EPSILON)%Q) as [Eab|Lab].
  { destruct (Qlt_le_dec (ca - cb) (- EPSILON)) as [H|H]; [right; lra|].
    left. apply Sab, Aab. lra. }
  - assert ((cb == cc)%Q \/ (cb < cc - EPSILON)%Q) as [Ebc|Lbc].
    { destruct (Qlt_le_dec (cb - cc) (- EPSILON)) as [H|H]; [right; lra|].
      left. apply Sbc, Abc. lra. }
    + split; [lra|]. intros _.
      assert (pa <= pb)%Q by (apply Hab2, Aab; lra).
      assert (pb <= pc)%Q by (apply Hbc2, Abc; lra). lra.
    + split; [lra|]. intros H. apply Aac in H. lra.
  - assert ((cb == cc)%Q \/ (cb < cc - EPSILON)%Q) as [Ebc|Lbc].
    { destruct (Qlt_le_dec (cb - cc) (- EPSILON)) as [H|H]; [right; lra|].
      left. apply Sbc, Abc. lra. }
    + split; [lra|]. intros H. apply Aac in H. lra.
    + split; [lra|]. intros H. apply Aac in H. lra.
Qed.

(** X17: [_compare] is a consistent (transitive) order on any list of
    scores in which two color scores within [EPSILON] of each other are
    always equal. *)
Theorem compare_consistent_when_separated (l : list ItemScore) :
  well_separated l -> consistent_on _compare l.
Proof. apply well_separated_consistent. Qed.

Lemma sample_well_separated :
  well_separated (score_items [sample_high; sample_low]).
Proof.
  intros a b Ha Hb. rewrite score_items_fmap in Ha, Hb.
  rewrite !fmap_cons, fmap_nil in Ha, Hb.
  apply elem_of_cons in Ha as [->|Ha];
    [|apply elem_of_cons in Ha as [->|Ha]; [|by apply elem_of_nil in Ha]];
    (apply elem_of_cons in Hb as [->|Hb];
     [|apply elem_of_cons in Hb as [->|Hb]; [|by apply elem_of_nil in Hb]]).
  - intros _. reflexivity.
  - vm_compute. intros H. exfalso. by apply H.
  - vm_compute. intros H. exfalso. by apply H.
  - intros _. reflexivity.
Qed.

Lemma compare_consistent_when_separated_witness :
  consistent_on _compare (score_items [sample_high; sample_low]).
Proof.
  exact (compare_consistent_when_separated _ sample_well_separated).
Defined.

(* ===================================================================== *)
(** ** Further properties: the ranked list *)
(* ===================================================================== *)

Lemma clear_rank_set_rank (s : ItemScore) (idx : Z) :
  rank s = None -> clear_rank (set_rank s idx) = s.
Proof. destruct s. simpl. by intros ->. Qed.

Lemma clear_rank_assign_ranks (scores : list ItemScore) (start : Z) :
  Forall (fun s => rank s = None) scores ->
  clear_rank <$> assign_ranks start scores = scores.
Proof.
  intros Hall. revert start.
  induction Hall as [|s scores Hs _ IH]; intros start; [done|].
  simpl assign_ranks. rewrite fmap_cons, IH. by rewrite clear_rank_set_rank.
Qed.

(** Taking the ranks off the result gives the sorted list back. *)
Lemma clear_rank_rank_items (items : list ItemInput) :
  clear_rank <$> rank_items items = sorted_scores items.
Proof. apply clear_rank_assign_ranks, sorted_scores_unranked. Qed.

Lemma assign_ranks_sorted (R : ItemScore -> ItemScore -> Prop)
    (scores : list ItemScore) (start : Z) :
  (forall a b i j, R a b -> R (set_rank a i) (set_rank b j)) ->
  StronglySorted R scores -> StronglySorted R (assign_ranks start scores).
Proof.
  intros HR Hs. revert start.
  induction Hs as [|s scores _ IH Hall]; intros start; simpl; constructor.
  - apply IH.
  - apply Forall_forall. intros s' Hs'.
    apply assign_ranks_elem in Hs' as (s0 & idx & Hs0 & ->).
    apply HR. rewrite Forall_forall in Hall. auto.
Qed.

(** X18: what the sort of [rank_items] yields whenever [_compare] is
    consistent on the scored items.  The returned list is in ascending
    order of the two keys, so the score ranked 1 is a lowest one: of any
    two returned scores the earlier has a color score at most [EPSILON]
    above the later's and, when their color scores are within [EPSILON],
    a percent score no greater.  And the sort is stable: scores with equal
    keys stand in the order in which their items were given. *)
Theorem rank_items_ascending_when_consistent (items : list ItemInput) :
  consistent_on _compare (score_items items) ->
  StronglySorted ascending (rank_items items)
  /\ (forall x, x ∈ score_items items ->
        filter (fun e => same_key _compare x e) (clear_rank <$> rank_items items)
        = filter (fun e => same_key _compare x e) (score_item <$> items)).
Proof.
  intros Hcons.
  destruct (sorted_scores_ascending_stable items Hcons) as [Hsorted Hstable].
  split.
  - apply assign_ranks_sorted; [|exact Hsorted].
    intros a b i j Hab. exact Hab.
  - intros x Hx. rewrite clear_rank_rank_items, <- score_items_fmap.
    by apply Hstable.
Qed.

Lemma rank_items_ascending_when_consistent_witness :
  StronglySorted ascending (rank_items [sample_high; sample_low]).
Proof.
  apply (rank_items_ascending_when_consistent [sample_high; sample_low]).
  apply well_separated_consistent, sample_well_separated.
Defined.

(** X19: [_compare] is not a consistent order on every input: there are
    three items, with color scores each within [EPSILON] of the next but
    more than [EPSILON] apart end to end, among whose scores "may stand
    before" is not transitive. *)
Theorem compare_inconsistent_on_some_input :
  exists items : list ItemInput,
    length items = 3%nat /\ ~ consistent_on _compare (score_items items).
Proof.
  exists [close_a; close_b; close_c]. split; [done|].
  intros H.
  specialize (H (score_item close_a) (score_item close_c) (score_item close_b)).
  rewrite score_items_fmap in H.
  assert (may_precede _compare (score_item close_a) (score_item close_b)) as Hab.
  { apply H.
    - apply list_elem_of_fmap_2. set_solver.
    - apply list_elem_of_fmap_2. set_solver.
    - apply list_elem_of_fmap_2. set_solver.
    - vm_compute. done.
    - vm_compute. done. }
  revert Hab. vm_compute. done.
Qed.

(** X20: [rank_items] scores every item on its own and reorders the
    scores: with the ranks taken off, the result is a permutation of the
    items' individual scores, each computed from that item alone.  An empty
    input gives an empty result and a single item gets rank 1. *)
Theorem rank_items_scores_each_item (items : list ItemInput) :
  clear_rank <$> rank_items items ≡ₚ score_item <$> items
  /\ rank_items [] = []
  /\ (forall it, rank_items [it] = [set_rank (score_item it) 1]).
Proof.
  split; [|split].
  - rewrite clear_rank_rank_items. apply sorted_scores_perm.
  - done.
  - intros it. done.
Qed.

(* ===================================================================== *)
(** ** Further properties: the coverage diagnostics of [ItemScore] *)
(* ===================================================================== *)

Lemma foldl_collect_coverages (blocks : list (option BlockScore)) (acc : list Q) :
  foldl (fun coverages block =>
           match block with
           | Some b =>
               if 0 <? n b then coverages ++ [coverage b] else coverages
           | None => coverages
           end) acc blocks
  = acc ++ collect_coverages blocks.
Proof.
  unfold collect_coverages. revert acc.
  induction blocks as [|block blocks IH]; intros acc; cbn [foldl].
  - by rewrite app_nil_r.
  - rewrite IH. rewrite (IH (match block with
                             | Some b => if 0 <? n b then [] ++ [coverage b] else []
                             | None => []
                             end)).
    destruct block as [b|]; [destruct (0 <? n b)|];
      by rewrite ?app_nil_l, ?app_assoc.
Qed.

(** The loop takes the blocks one by one and keeps the coverage of those
    that are present and not empty. *)
Lemma collect_coverages_cons (block : option BlockScore)
    (blocks : list (option BlockScore)) :
  collect_coverages (block :: blocks)
  = match block with
    | Some b => if 0 <? n b then [coverage b] else []
    | None => []
    end ++ collect_coverages blocks.
Proof.
  unfold collect_coverages at 1. cbn [foldl]. rewrite foldl_collect_coverages.
  destruct block as [b|]; [destruct (0 <? n b)|]; done.
Qed.

Lemma collect_coverages_range (blocks : list (option BlockScore)) :
  Forall (fun block =>
            match block with
            | Some b => 0 <= g b /\ 0 <= y b /\ 0 <= r b
            | None => True
            end) blocks ->
  Forall (fun q => (0 <= q <= 1)%Q) (collect_coverages blocks).
Proof.
  induction 1 as [|block blocks Hb _ IH]; [constructor|].
  rewrite collect_coverages_cons. apply Forall_app. split; [|exact IH].
  destruct block as [b|]; [|constructor].
  destruct (0 <? n b); [|constructor].
  destruct Hb as (Hg & Hy & Hr). constructor; [|constructor].
  by apply coverage_range.
Qed.

Lemma mean_coverage_range (blocks : list (option BlockScore)) :
  Forall (fun block =>
            match block with
            | Some b => 0 <= g b /\ 0 <= y b /\ 0 <= r b
            | None => True
            end) blocks ->
  (0 <= mean_coverage blocks <= 1)%Q.
Proof.
  intros Hall. apply collect_coverages_range in Hall.
  unfold mean_coverage. cbv zeta.
  destruct (collect_coverages blocks) as [|q l] eqn:E; [lra|].
  change (Qsum (q :: l) / float (Z.of_nat (length (q :: l))))%Q
    with (_average (q :: l)).
  by apply average_bounds.
Qed.

(** X11: [average_coverage] is the mean of the coverages of the blocks
    that are present and hold at least one requirement: a block that is
    [None] or has [n <= 0] is skipped, and with no block left the answer is
    0.0 without a division.  A single counted block gives its own coverage,
    and for blocks with non-negative counts the mean lies in [0,1]. *)
Theorem mean_coverage_skips_absent_blocks
    (b : BlockScore) (blocks : list (option BlockScore)) :
  Forall (fun block =>
            match block with
            | Some b' => 0 <= g b' /\ 0 <= y b' /\ 0 <= r b'
            | None => True
            end) blocks ->
  (0 <= mean_coverage blocks <= 1)%Q
  /\ mean_coverage [] = 0.0%Q
  /\ mean_coverage (None :: blocks) = mean_coverage blocks
  /\ (n b <= 0 -> mean_coverage (Some b :: blocks) = mean_coverage blocks)
  /\ (0 < n b -> (mean_coverage [Some b] == coverage b)%Q).
Proof.
  intros Hall. split; [by apply mean_coverage_range|]. split; [done|]. split.
  { unfold mean_coverage. by rewrite collect_coverages_cons. }
  split.
  - intros Hn. unfold mean_coverage. rewrite collect_coverages_cons.
    destruct (Z.ltb_spec 0 (n b)) as [?|_]; [lia|done].
  - intros Hn. unfold mean_coverage. rewrite !collect_coverages_cons.
    destruct (Z.ltb_spec 0 (n b)) as [_|?]; [|lia].
    cbv zeta. cbn [app collect_coverages foldl length].
    unfold Qsum, float. cbn [foldl]. change (inject_Z (Z.of_nat 1)) with 1%Q.
    field.
Qed.

(** A score whose Preferred and Tasks blocks are empty: the mean is over
    the Mandatory block alone. *)
Lemma mean_coverage_skips_absent_blocks_witness :
  (0 <= mean_coverage [Some (calculate_block_score [req 80; req 10] MANDATORY);
                       Some zero_block_score; None] <= 1)%Q.
Proof.
  apply (mean_coverage_skips_absent_blocks zero_block_score).
  repeat constructor; vm_compute; discriminate.
Defined.

(** A scored block counts at least one requirement exactly when its list
    is not empty. *)
Lemma block_score_n_positive (reqs : list Requirement) (bt : BlockType) :
  (0 <? n (calculate_block_score reqs bt)) = negb (is_empty reqs).
Proof.
  destruct (block_score_n reqs bt) as [-> _].
  destruct reqs; [done|]. cbn [length is_empty negb].
  apply Z.ltb_lt. lia.
Qed.

(** The blocks of a scored item have non-negative counts. *)
Lemma score_item_blocks_nonneg (it : ItemInput) :
  Forall (fun block =>
            match block with
            | Some b => 0 <= g b /\ 0 <= y b /\ 0 <= r b
            | None => True
            end)
    [Some (mandatory (score_item it)); Some (preferred (score_item it));
     Some (tasks (score_item it))].
Proof.
  assert (forall l k, 0 <= g (calculate_block_score l k)
                      /\ 0 <= y (calculate_block_score l k)
                      /\ 0 <= r (calculate_block_score l k)) as Hnn.
  { intros l k. destruct (calculate_block_score_counts l k) as (-> & -> & ->).
    repeat split; apply tier_count_nonneg. }
  unfold score_item. cbn [mandatory preferred tasks].
  repeat (constructor; [apply Hnn|]). constructor.
Qed.

(** X21: for every item, the diagnostics of its score stay in range:
    [0 <= mandatory_coverage <= 1] and [0 <= average_coverage <= 1]; an
    item without any requirement has [average_coverage = 0.0], and an item
    with a Mandatory block only has [average_coverage] equal to its
    [mandatory_coverage].  The same bounds hold for every score that
    [rank_items] returns. *)
Theorem coverage_diagnostics_in_range (items : list ItemInput) :
  (forall it : ItemInput,
      let s := score_item it in
      (0 <= mandatory_coverage s <= 1)%Q
      /\ (0 <= average_coverage s <= 1)%Q
      /\ (if is_empty (in_mandatory it) && is_empty (in_preferred it)
             && is_empty (in_tasks it)
          then average_coverage s = 0.0%Q else True)
      /\ (if negb (is_empty (in_mandatory it)) && is_empty (in_preferred it)
             && is_empty (in_tasks it)
          then (average_coverage s == mandatory_coverage s)%Q else True))
  /\ Forall (fun s => (0 <= mandatory_coverage s <= 1)%Q
                      /\ (0 <= average_coverage s <= 1)%Q)
       (rank_items items).
Proof.
  assert (forall it : ItemInput,
    (0 <= mandatory_coverage (score_item it) <= 1)%Q
    /\ (0 <= average_coverage (score_item it) <= 1)%Q) as Hrange.
  { intros it. pose proof (score_item_blocks_nonneg it) as Hnn. split.
    - apply Forall_cons in Hnn as [(Hg & Hy & Hr) _].
      unfold mandatory_coverage, coverage_or_zero. by apply coverage_range.
    - unfold average_coverage. by apply mean_coverage_range. }
  split.
  - intros it. cbv zeta. destruct (Hrange it) as [Hm Ha].
    split; [exact Hm|]. split; [exact Ha|].
    unfold average_coverage, mandatory_coverage, coverage_or_zero, mean_coverage.
    rewrite !collect_coverages_cons.
    unfold score_item. cbn [mandatory preferred tasks].
    rewrite !block_score_n_positive.
    destruct (in_mandatory it) as [|rq reqs], (in_preferred it) as [|rq' reqs'],
      (in_tasks it) as [|rq'' reqs'']; cbn [is_empty negb andb]; try done.
    split; [done|].
    cbv zeta. cbn [app collect_coverages foldl length].
    unfold Qsum, float. cbn [foldl]. change (inject_Z (Z.of_nat 1)) with 1%Q.
    field.
  - apply Forall_forall. intros s Hs.
    apply rank_items_elem in Hs as (it & idx & _ & ->).
    exact (Hrange it).
Qed.
